(** * AI Tutor: quiz generation, grading, invites and extraction

    A shallow embedding of the parts of the AI Tutor application that its
    specification makes testable statements about, with the code around
    them:

    - [quiz_generator.py]  (class [QuizGenerator]),
    - [quiz_component.py]  (storing, taking, grading and submitting a
                           quiz),
    - [database.py]        (users, invite links and the quiz tables),
    - [auth_manager.py]    (registration, login and invites),
    - [pdf_handler.py], [image_handler.py], [docx_handler.py]
                           (text extraction back ends),
    - [upload_manager.py]  (the dispatch of an upload to a back end).

    Python [str] values are modelled as [list ascii]: the text is taken to
    be ASCII, and the character classes below are Python's classes
    restricted to code points 0..127.  Calls to the [random] module read
    from an explicit source of natural numbers that is threaded through
    the code, so that every outcome of a random call is the outcome for
    some source. *)

From Stdlib Require Import Ascii String QArith DecimalString.
From stdpp Require Import base list gmap sets strings sorting.

Local Open Scope nat_scope.

Abbreviation str := (list ascii).

(** A Python string literal. *)
Definition py (s : string) : str := list_ascii_of_string s.

(** ** Python string primitives *)

Module PyStr.

Definition code (c : ascii) : nat := nat_of_ascii c.

Definition between (lo hi n : nat) : bool := (lo <=? n) && (n <=? hi).

(** [str.isspace] on one ASCII character: TAB, LF, VT, FF, CR, the four
    separators FS, GS, RS, US, and the space. This is also [\s] of [re]
    for [str] patterns. *)
Definition is_space (c : ascii) : bool :=
  between 9 13 (code c) || between 28 32 (code c).

Definition is_upper (c : ascii) : bool := between 65 90 (code c).
Definition is_lower (c : ascii) : bool := between 97 122 (code c).
Definition is_digit (c : ascii) : bool := between 48 57 (code c).
Definition is_alpha (c : ascii) : bool := is_upper c || is_lower c.

(** [\w] of [re]: letters, digits and the underscore. *)
Definition is_word (c : ascii) : bool :=
  is_alpha c || is_digit c || (code c =? 95).

Definition lower_char (c : ascii) : ascii :=
  if is_upper c then ascii_of_nat (code c + 32) else c.

(** [s.lower()] *)
Definition lower (s : str) : str := map lower_char s.

(** [s.isalpha()]: at least one character, all of them letters. *)
Definition isalpha (s : str) : bool :=
  match s with
  | [] => false
  | _ => forallb is_alpha s
  end.

Fixpoint lstrip (s : str) : str :=
  match s with
  | [] => []
  | c :: s' => if is_space c then lstrip s' else s
  end.

Definition rstrip (s : str) : str := rev (lstrip (rev s)).

(** [s.strip()] *)
Definition strip (s : str) : str := rstrip (lstrip s).

(** [re.split] on a one-character class [p]: the text is cut at every
    character of the class, and the fields between two cuts are kept
    even when they are empty. *)
Fixpoint split_on (p : ascii → bool) (s : str) : list str :=
  match s with
  | [] => [[]]
  | c :: s' =>
      if p c then [] :: split_on p s'
      else match split_on p s' with
           | [] => [[c]]
           | f :: fs => (c :: f) :: fs
           end
  end.

Definition nonempty (s : str) : bool :=
  match s with [] => false | _ => true end.

(** [s.split()]: the maximal runs of characters that are not white
    space. *)
Definition split (s : str) : list str :=
  List.filter nonempty (split_on is_space s).

(** [re.findall(r'\b\w+\b', s)]: the maximal runs of word characters. *)
Definition findall_words (s : str) : list str :=
  List.filter nonempty (split_on (λ c, negb (is_word c)) s).

(** [s.startswith(t)] *)
Fixpoint startswith (t s : str) : bool :=
  match t, s with
  | [], _ => true
  | _ :: _, [] => false
  | a :: t', b :: s' => bool_decide (a = b) && startswith t' s'
  end.

(** [t in s] *)
Fixpoint contains (t s : str) : bool :=
  startswith t s
  || match s with
     | [] => false
     | _ :: s' => contains t s'
     end.

(** [s.replace(old, new)]: scanning from the left, every occurrence of
    [old] that does not overlap an occurrence already replaced is
    replaced by [new]. [skip] counts the characters of a replaced
    occurrence that are still to be passed over. For an empty [old]
    Python puts [new] before every character and at the end. *)
Fixpoint replace_from (old new : str) (skip : nat) (s : str) : str :=
  match s with
  | [] => []
  | c :: s' =>
      match skip with
      | S k => replace_from old new k s'
      | 0 =>
          if startswith old s
          then new ++ replace_from old new (length old - 1) s'
          else c :: replace_from old new 0 s'
      end
  end.

Definition replace (s old new : str) : str :=
  match old with
  | [] => flat_map (λ c, new ++ [c]) s ++ new
  | _ => replace_from old new 0 s
  end.

(** No occurrence of [t] in the text [a ++ s] starts within [a]. *)
Fixpoint no_occurrence_before (t a s : str) : bool :=
  match a with
  | [] => true
  | _ :: a' => negb (startswith t (a ++ s)) && no_occurrence_before t a' s
  end.

(** [re.sub(r'\s+', ' ', s)]: every maximal run of white space becomes
    one space. [in_run] tells that the previous character was white
    space. *)
Fixpoint collapse_spaces (in_run : bool) (s : str) : str :=
  match s with
  | [] => []
  | c :: s' =>
      if is_space c
      then (if in_run then collapse_spaces true s'
            else " "%char :: collapse_spaces true s')
      else c :: collapse_spaces false s'
  end.

(** A word of [ws] stands at the head of [s] and is followed by a word
    boundary ([\b]): the end of the text or a non-word character. *)
Definition word_here (w s : str) : bool :=
  startswith w s &&
  match drop (length w) s with
  | [] => true
  | d :: _ => negb (is_word d)
  end.

(** [re.search(r'\b(w1|w2|...)\b', s)] for alternatives made of word
    characters: some alternative occurs in [s] between two word
    boundaries. [prev] tells that the character before the current
    position is a word character. *)
Fixpoint search_words_from (prev : bool) (ws : list str) (s : str) : bool :=
  match s with
  | [] => false
  | c :: s' =>
      (negb prev && existsb (λ w, word_here w s) ws)
      || search_words_from (is_word c) ws s'
  end.

Definition search_words (ws : list str) (s : str) : bool :=
  search_words_from false ws s.

(** [sorted(l, key=len, reverse=True)]: a stable sort by decreasing
    length; among strings of one length the order of [l] is kept. *)
Fixpoint insert_by_len (x : str) (l : list str) : list str :=
  match l with
  | [] => [x]
  | y :: ys =>
      if length x <? length y then y :: insert_by_len x ys
      else x :: l
  end.

Definition sorted_by_len_desc (l : list str) : list str :=
  foldr insert_by_len [] l.

(** [l.count(x)] *)
Definition count (x : str) (l : list str) : nat :=
  length (List.filter (λ y, bool_decide (y = x)) l).

(** [l.remove(x)]: the first element equal to [x] is removed. *)
Fixpoint remove_first (x : str) (l : list str) : list str :=
  match l with
  | [] => []
  | y :: ys => if bool_decide (x = y) then ys else y :: remove_first x ys
  end.

End PyStr.

(** ** The [random] module

    A computation that draws random numbers is a function of the source
    it reads from; it returns its result with the rest of the source.
    The source is the sequence of raw numbers the generator will
    produce. *)

Module PyRandom.

Definition Rng : Type := nat → nat.

Definition Rand (A : Type) : Type := Rng → A * Rng.

Definition ret {A} (x : A) : Rand A := λ r, (x, r).

Definition bind {A B} (m : Rand A) (k : A → Rand B) : Rand B :=
  λ r, let (x, r') := m r in k x r'.

(** A source that produces the numbers of [l] and then zeros. *)
Definition tape (l : list nat) : Rng := λ i, nth i l 0.

(** [random._randbelow(S n)]: a number in [0 .. n]. *)
Definition randbelow (n : nat) : Rand nat :=
  λ r, (r 0 mod n, λ i, r (S i)).

(** [random.choice] of the non-empty sequence [x :: xs]. *)
Definition choice {A} (x : A) (xs : list A) : Rand A :=
  bind (randbelow (S (length xs))) (λ i, ret (nth i (x :: xs) x)).

(** [random.sample(l, k)]: [k] elements of [l] at [k] different
    positions, in the order they are drawn. Python raises [ValueError]
    for [k > len(l)]; the callers below never ask for that, and the
    model then returns the whole population in some order. *)
Fixpoint sample {A} (l : list A) (k : nat) : Rand (list A) :=
  match k, l with
  | 0, _ => ret []
  | S _, [] => ret []
  | S k', x :: _ =>
      bind (randbelow (length l)) (λ i,
      bind (sample (delete i l) k') (λ rest,
      ret (nth i l x :: rest)))
  end.

(** [random.shuffle(l)]: the elements of [l] in a random order. *)
Definition shuffle {A} (l : list A) : Rand (list A) := sample l (length l).

End PyRandom.

Declare Scope rand_scope.
Delimit Scope rand_scope with rand.
Notation "x <- m ; k" := (PyRandom.bind m (λ x, k))
  (at level 20, m at level 100, k at level 200, only parsing) : rand_scope.
Notation "' x <- m ; k" := (PyRandom.bind m (λ x, k))
  (at level 20, x pattern, m at level 100, k at level 200, only parsing)
  : rand_scope.

(** ** [quiz_generator.py] *)

Module QuizGenerator.
Import PyStr PyRandom.
Local Open Scope rand_scope.

Inductive QuestionType := multiple_choice | short_answer.

(** A question dictionary. The source stores the options as
    [json.dumps(options)] and the quiz page reads them back with
    [json.loads]; the field holds the list that goes through this round
    trip, and [None] for a short-answer question. *)
Record Question := {
  question_text : str;
  question_type : QuestionType;
  correct_answer : str;
  options : option (list str)
}.

Record Quiz := {
  title : str;
  source_material : str;
  questions : list Question
}.

(** The marker that stands for the term asked about. *)
Definition blank : str := py "________".

(** [_preprocess_content] *)
Definition _preprocess_content (content : str) : str :=
  let content := collapse_spaces false content in
  let content :=
    List.filter
      (λ c, is_word c || is_space c
            || bool_decide (c ∈ py ".,;:?!()-")) content in
  strip content.

(** The class [[.!?]] of the characters that end a sentence. *)
Definition sentence_end (c : ascii) : bool := bool_decide (c ∈ py ".!?").

(** The first two statements of [_extract_key_facts], which both
    generic generators repeat: the fragments between [.], [!] and [?],
    stripped, those longer than 20 characters. *)
Definition sentences_of (content : str) : list str :=
  map strip
    (List.filter (λ s, 20 <? length (strip s))
       (split_on sentence_end content)).

Definition fact_verbs : list str :=
  map py ["is"; "are"; "was"; "were"; "has"; "have"; "had"; "can";
          "could"; "will"; "would"; "should"; "may"; "might"].

(** The pronoun alternatives exactly as the pattern of the source
    spells them: [I] is a capital letter. *)
Definition pronouns : list str := map py ["I"; "we"; "you"].

(** The test of the loop of [_extract_key_facts]: the verbs are sought
    in the sentence, the pronouns in the lowercased sentence. *)
Definition is_fact_sentence (sentence : str) : bool :=
  search_words fact_verbs sentence
  && negb (search_words pronouns (lower sentence)).

(** [_extract_key_facts] *)
Definition _extract_key_facts (content : str) : list str :=
  let sentences := sentences_of content in
  let fact_sentences := List.filter is_fact_sentence sentences in
  if length fact_sentences <? 10 then
    let regular_sentences :=
      sorted_by_len_desc
        (List.filter (λ s, bool_decide (s ∉ fact_sentences)) sentences) in
    fact_sentences ++ take (10 - length fact_sentences) regular_sentences
  else fact_sentences.

Definition stop_words : list str :=
  map py ["about"; "after"; "again"; "below"; "could"; "every";
          "first"; "found"; "great"; "house"; "large"; "learn";
          "never"; "other"; "place"; "plant"; "point"; "right";
          "small"; "sound"; "spell"; "still"; "study"; "their";
          "there"; "these"; "thing"; "think"; "three"; "water";
          "where"; "which"; "world"; "would"; "write"].

Definition generic_distractors : list str :=
  map py ["option"; "example"; "factor"; "element"; "component";
          "feature"; "aspect"; "quality"; "property"; "attribute"].

Definition abs_diff (a b : nat) : nat := (a - b) + (b - a).

(** The first half of [_generate_distractors]: the words of the text
    that may serve as distractors. [list(set(...))] is a list without
    repetitions in an order Python does not fix; the callers shuffle
    what they get, and [remove_dups] stands for that list. *)
Definition similar_words (correct_answer content : str) : list str :=
  let words := findall_words content in
  let similar_words :=
    List.filter
      (λ w, (abs_diff (length w) (length correct_answer) <=? 2)
            && bool_decide (lower w ≠ lower correct_answer)
            && (3 <? length w)) words in
  remove_dups (map lower similar_words).

(** [_generate_distractors] *)
Definition _generate_distractors
    (correct_answer content : str) (num_distractors : nat)
    : Rand (list str) :=
  let similar_words := similar_words correct_answer content in
  if num_distractors <=? length similar_words then
    sample similar_words num_distractors
  else
    extra <- sample generic_distractors
               (num_distractors - length similar_words) ;
    ret (take num_distractors (similar_words ++ extra)).

(** The part shared by the two multiple-choice generators once the
    target term is known: distractors, options, shuffle. *)
Definition multiple_choice_for
    (text target_term content : str) : Rand Question :=
  let correct_answer := target_term in
  distractors <- _generate_distractors target_term content 3 ;
  options <- shuffle (correct_answer :: distractors) ;
  ret {| question_text := text;
         question_type := multiple_choice;
         correct_answer := correct_answer;
         options := Some options |}.

(** [_generate_multiple_choice_question]; [None] is Python's [None]. *)
Definition _generate_multiple_choice_question
    (fact content : str) : Rand (option Question) :=
  let words := split fact in
  let key_terms :=
    List.filter
      (λ w, (4 <? length w) && bool_decide (lower w ∉ stop_words))
      words in
  match key_terms with
  | [] => ret None
  | t :: ts =>
      target_term <- choice t ts ;
      let question_text := replace fact target_term blank in
      q <- multiple_choice_for question_text target_term content ;
      ret (Some q)
  end.

(** The longest proper, non-empty beginning [g] of [s] such that
    [g ++ sep ++ rest = s] up to letter case for some non-empty [rest]:
    what the group [(.+)] of the pattern [(.+)sep(.+)] holds after a
    greedy match that starts at the head of a one-line text. [at_head]
    tells that the current position is the head of the text, where the
    group would be empty. *)
Fixpoint greedy_group (sep : str) (at_head : bool) (s : str) : option str :=
  match s with
  | [] => None
  | c :: s' =>
      match greedy_group sep false s' with
      | Some g => Some (c :: g)
      | None =>
          if negb at_head && startswith sep (lower s)
             && nonempty (drop (length sep) s)
          then Some [] else None
      end
  end.

(** The ordered templates of [_convert_to_question]: the word between
    the two groups, what precedes the first group in the question and
    what follows it. *)
Definition question_templates : list (str * (str * str)) :=
  [ (py " is ",   (py "What is ",   py "?"));
    (py " are ",  (py "What are ",  py "?"));
    (py " was ",  (py "What was ",  py "?"));
    (py " were ", (py "What were ", py "?"));
    (py " has ",  (py "What does ", py " have?"));
    (py " have ", (py "What do ",   py " have?")) ].

Fixpoint first_template
    (ts : list (str * (str * str))) (statement : str) : option str :=
  match ts with
  | [] => None
  | (sep, (before, after)) :: ts' =>
      match greedy_group sep true statement with
      | Some g => Some (before ++ g ++ after)
      | None => first_template ts' statement
      end
  end.

(** [_convert_to_question], for a statement without a line break (the
    facts are fragments of preprocessed content, where every run of
    white space is one space): the first template that matches wins. *)
Definition _convert_to_question (statement : str) : str :=
  let statement := strip statement in
  match first_template question_templates statement with
  | Some question => question
  | None => py "Explain the following concept: " ++ statement
  end.

(** [_generate_short_answer_question] *)
Definition _generate_short_answer_question (fact : str) : Question :=
  {| question_text := _convert_to_question fact;
     question_type := short_answer;
     correct_answer := fact;
     options := None |}.

(** The test on the words of a sentence in
    [_generate_generic_multiple_choice_question]. *)
Definition generic_key_term (w : str) : bool := (4 <? length w) && isalpha w.

(** The sentence has a word that the generic multiple-choice generator
    can ask about. *)
Definition has_generic_term (sentence : str) : bool :=
  existsb generic_key_term (split sentence).

(** [_generate_generic_multiple_choice_question] *)
Definition _generate_generic_multiple_choice_question
    (content : str) : Rand (option Question) :=
  match sentences_of content with
  | [] => ret None
  | s :: ss =>
      sentence <- choice s ss ;
      let words := split sentence in
      let key_terms := List.filter generic_key_term words in
      match key_terms with
      | [] => ret None
      | t :: ts =>
          target_term <- choice t ts ;
          let question_text :=
            py "Which of the following terms is mentioned in the context of: '"
            ++ replace sentence target_term blank ++ py "'?" in
          q <- multiple_choice_for question_text target_term content ;
          ret (Some q)
      end
  end.

(** [_generate_generic_short_answer_question] *)
Definition _generate_generic_short_answer_question
    (content : str) : Rand (option Question) :=
  match sentences_of content with
  | [] => ret None
  | s :: ss =>
      sentence <- choice s ss ;
      let q k := py k ++ sentence ++ py "'" in
      question_text <-
        choice (q "Explain what is meant by: '")
          [ q "What is the significance of: '";
            q "Summarize the meaning of: '";
            q "What concept is described in: '";
            q "Describe the importance of: '" ] ;
      ret (Some {| question_text := question_text;
                   question_type := short_answer;
                   correct_answer := sentence;
                   options := None |})
  end.

(** [questions.append(question)] under [if question:]. *)
Definition append_if (questions : list Question) (q : option Question)
    : list Question :=
  match q with
  | Some q => questions ++ [q]
  | None => questions
  end.

(** The first [for] loop of [generate_quiz]; the state is the pair of
    [key_facts] and [questions], both mutated in place by the source. *)
Fixpoint multiple_choice_loop (n : nat) (content : str)
    (key_facts : list str) (questions : list Question)
    : Rand (list str * list Question) :=
  match n with
  | 0 => ret (key_facts, questions)
  | S n' =>
      match key_facts with
      | [] => multiple_choice_loop n' content key_facts questions
      | f :: fs =>
          fact <- choice f fs ;
          let key_facts := remove_first fact key_facts in
          question <- _generate_multiple_choice_question fact content ;
          multiple_choice_loop n' content key_facts
            (append_if questions question)
      end
  end.

(** The second [for] loop. *)
Fixpoint short_answer_loop (n : nat)
    (key_facts : list str) (questions : list Question)
    : Rand (list str * list Question) :=
  match n with
  | 0 => ret (key_facts, questions)
  | S n' =>
      match key_facts with
      | [] => short_answer_loop n' key_facts questions
      | f :: fs =>
          fact <- choice f fs ;
          let key_facts := remove_first fact key_facts in
          let question := _generate_short_answer_question fact in
          short_answer_loop n' key_facts (questions ++ [question])
      end
  end.

(** The [while] loop that fills the quota. [fuel] bounds the number of
    times the body runs; [None] means that the condition of the loop
    still held when the bound was reached. *)
Fixpoint generic_loop (fuel : nat) (content : str) (num_questions : nat)
    (questions : list Question) : Rand (option (list Question)) :=
  if length questions <? num_questions then
    match fuel with
    | 0 => ret None
    | S fuel' =>
        question <-
          (if Nat.even (length questions)
           then _generate_generic_multiple_choice_question content
           else _generate_generic_short_answer_question content) ;
        generic_loop fuel' content num_questions
          (append_if questions question)
    end
  else ret (Some questions).

(** [max(1, int(num_questions * 0.6))]. The product is a binary
    floating-point number; for a count below 10^15 its integer part is
    that of the exact product, [3 * num_questions / 5]. *)
Definition num_multiple_choice (num_questions : nat) : nat :=
  Nat.max 1 (3 * num_questions / 5).

(** [generate_quiz], for [num_questions >= 0]. The result is [None]
    when the [while] loop has not ended within [fuel] rounds. *)
Definition generate_quiz (fuel : nat)
    (content title : str) (num_questions : nat) : Rand (option Quiz) :=
  let processed_content := _preprocess_content content in
  let key_facts := _extract_key_facts processed_content in
  let num_mc := num_multiple_choice num_questions in
  let num_sa := num_questions - num_mc in
  '(key_facts, questions) <-
     multiple_choice_loop num_mc processed_content key_facts [] ;
  '(key_facts, questions) <- short_answer_loop num_sa key_facts questions ;
  filled <- generic_loop fuel processed_content num_questions questions ;
  match filled with
  | None => ret None
  | Some questions =>
      questions <- shuffle questions ;
      ret (Some {| title := title;
                   source_material :=
                     if 500 <? length content
                     then take 500 content ++ py "..." else content;
                   questions := take num_questions questions |})
  end.

End QuizGenerator.

(** ** [quiz_component.py]: grading in [render_quiz_taking] *)

Module QuizComponent.
Import PyStr QuizGenerator.

(** An entry of [st.session_state.quiz_responses]. *)
Record Response := {
  question_id : nat;
  response : str;
  is_correct : bool
}.

(** [set(s.lower().split())] *)
Definition terms (s : str) : gset str := list_to_set (split (lower s)).

(** The grade of a short answer:
    [overlap >= len(correct_terms) * 0.5]. The right-hand side is a
    float; halving an integer below 2^53 is exact and Python compares
    an [int] with a [float] exactly, so the comparison is the one of
    the rationals. *)
Definition short_answer_is_correct (correct_answer response : str) : bool :=
  let correct_terms := terms correct_answer in
  let response_terms := terms response in
  let overlap := size (correct_terms ∩ response_terms) in
  Qle_bool (inject_Z (Z.of_nat (size correct_terms)) * (1 # 2))
           (inject_Z (Z.of_nat overlap)).

(** The grade of a multiple-choice answer: [response == correct_answer]. *)
Definition multiple_choice_is_correct (correct_answer response : str) : bool :=
  bool_decide (response = correct_answer).

(** The body of the loop of [render_quiz_taking] for question [i]: what
    the widget returned is graded and stored. [None] is the radio
    button without a selection; an empty text area stores nothing
    ([if response:]). *)
Definition record_response (i : nat) (question : Question)
    (widget : option str) (quiz_responses : gmap nat Response)
    : gmap nat Response :=
  match question_type question, widget with
  | multiple_choice, Some r =>
      <[i := {| question_id := i; response := r;
                is_correct :=
                  multiple_choice_is_correct (correct_answer question) r |}]>
        quiz_responses
  | short_answer, Some (c :: r') =>
      let r := c :: r' in
      <[i := {| question_id := i; response := r;
                is_correct :=
                  short_answer_is_correct (correct_answer question) r |}]>
        quiz_responses
  | _, _ => quiz_responses
  end.

End QuizComponent.

(** ** [database.py]: users and invite links *)

Module Database.

(** A row of [users]. The columns no operation below reads
    ([created_at], the subscription columns) are left out. *)
Record User := {
  user_id : nat;
  username : str;
  password_hash : str;
  email : option str;
  is_admin : bool
}.

(** A row of [invite_links]. [expires_at] is stored as text:
    [Some t] is a text that [datetime.fromisoformat] reads as the
    instant [t], [None] one it rejects with [ValueError]. *)
Record Invite := {
  invite_id : nat;
  token : str;
  invite_email : option str;
  created_by : Z;
  expires_at : option Z;
  used : bool;
  used_by : option Z
}.

(** The two tables with the last row id each [AUTOINCREMENT] key has
    handed out. *)
Record DB := {
  users : list User;
  users_seq : nat;
  invite_links : list Invite;
  invite_links_seq : nat
}.

(** The constraint of the schema that redeeming an invite relies on:
    [token] is [UNIQUE] in [invite_links]. *)
Definition tokens_unique (db : DB) : Prop :=
  NoDup (map token (invite_links db)).

(** [count_users] *)
Definition count_users (db : DB) : nat := length (users db).

(** [INSERT INTO users] fails with [IntegrityError] when the user name
    is taken or when the e-mail address is given and taken. *)
Definition user_conflict (name : str) (mail : option str) (db : DB) : bool :=
  existsb (λ u, bool_decide (username u = name)) (users db)
  || match mail with
     | Some m => existsb (λ u, bool_decide (email u = Some m)) (users db)
     | None => false
     end.

(** [add_user]: the new row id, or [-1] on an integrity error. Row ids
    are positive, so the two cannot be confused. *)
Definition add_user (name hash : str) (mail : option str) (admin : bool)
    (db : DB) : Z * DB :=
  if user_conflict name mail db then ((-1)%Z, db)
  else
    let id := users_seq db + 1 in
    (Z.of_nat id, {| users := users db ++
              [{| user_id := id; username := name; password_hash := hash;
                  email := mail; is_admin := admin |}];
            users_seq := id;
            invite_links := invite_links db;
            invite_links_seq := invite_links_seq db |}).

(** [get_user_by_id] *)
Definition get_user_by_id (id : Z) (db : DB) : option User :=
  List.find (λ u, bool_decide (Z.of_nat (user_id u) = id)) (users db).



(** [SELECT ... FROM invite_links WHERE token = ? AND used = 0]
    followed by [fetchone()]. *)
Definition select_unused_invite (tok : str) (db : DB) : option Invite :=
  List.find (λ i, bool_decide (token i = tok) && negb (used i))
    (invite_links db).

(** [UPDATE invite_links SET used = 1, used_by = ? WHERE id = ?] *)
Definition mark_used (id : nat) (uid : Z) (db : DB) : DB :=
  {| users := users db;
     users_seq := users_seq db;
     invite_links :=
       map (λ i, if bool_decide (invite_id i = id)
                 then {| invite_id := invite_id i; token := token i;
                         invite_email := invite_email i;
                         created_by := created_by i;
                         expires_at := expires_at i;
                         used := true; used_by := Some uid |}
                 else i) (invite_links db);
     invite_links_seq := invite_links_seq db |}.

(** [use_invite_link]; [now] is [datetime.datetime.now()]. *)
Definition use_invite_link (tok : str) (uid : Z) (now : Z) (db : DB)
    : bool * DB :=
  match select_unused_invite tok db with
  | None => (false, db)
  | Some invite =>
      match expires_at invite with
      | None => (false, db)
      | Some expires =>
          if (expires <? now)%Z then (false, db)
          else (true, mark_used (invite_id invite) uid db)
      end
  end.

(** [get_user_by_username] *)
Definition get_user_by_username (name : str) (db : DB) : option User :=
  List.find (λ u, bool_decide (username u = name)) (users db).

(** What the schema and [AUTOINCREMENT] keep true of the [users] table:
    [username] and [id] are unique, so is [email] where it is given, and
    no row has an id beyond the last one handed out. *)
Definition users_consistent (db : DB) : Prop :=
  NoDup (map username (users db))
  ∧ NoDup (map user_id (users db))
  ∧ NoDup (omap email (users db))
  ∧ Forall (λ u, user_id u ≤ users_seq db) (users db).

(** The same for [invite_links]. *)
Definition invites_consistent (db : DB) : Prop :=
  tokens_unique db
  ∧ NoDup (map invite_id (invite_links db))
  ∧ Forall (λ i, invite_id i ≤ invite_links_seq db) (invite_links db).


End Database.

(** ** [auth_manager.py] *)

Module AuthManager.
Import Database.

(** The dictionaries the methods return. *)
Record ValidationResult := {
  v_success : bool;
  v_message : str;
  v_invite : option Invite
}.

Record RegistrationResult := {
  success : bool;
  message : str;
  user : option User
}.

Definition failure (m : string) : RegistrationResult :=
  {| success := false; message := py m; user := None |}.

(** [validate_invite_token] *)
Definition validate_invite_token (tok : str) (now : Z) (db : DB)
    : ValidationResult :=
  match select_unused_invite tok db with
  | None =>
      {| v_success := false;
         v_message := py "Invalid or already used invite token.";
         v_invite := None |}
  | Some invite =>
      match expires_at invite with
      | None =>
          {| v_success := false;
             v_message := py "Invalid expiration date format for invite token.";
             v_invite := None |}
      | Some expires =>
          if (expires <? now)%Z then
            {| v_success := false;
               v_message := py "Invite token has expired.";
               v_invite := None |}
          else
            {| v_success := true;
               v_message := py "Invite token is valid.";
               v_invite := Some invite |}
      end
  end.

Section Register.

(** [_hash_password]: bcrypt with a fresh salt; nothing below depends
    on the hash it yields. *)
Variable _hash_password : str → str.

(** Python's truth value of an optional string: [None] and the empty
    string are false. *)
Definition truthy (s : option str) : bool :=
  match s with
  | Some (_ :: _) => true
  | _ => false
  end.

(** [register_user]. [now] is the reading of the clock when the token
    is validated and [now'] the later one when it is redeemed; the
    result comes with the database the call leaves behind. *)
Definition register_user (name password : str) (mail : option str)
    (invite_token : option str) (now now' : Z) (db : DB)
    : RegistrationResult * DB :=
  let is_first_user := count_users db =? 0 in
  let token_check :=
    if is_first_user then None
    else if negb (truthy invite_token) then
      Some (failure "Invite token is required for registration.")
    else
      let v := validate_invite_token (default [] invite_token) now db in
      if v_success v then None
      else Some {| success := false; message := v_message v;
                   user := None |} in
  match token_check with
  | Some refusal => (refusal, db)
  | None =>
      if length name <? 3 then
        (failure "Username must be at least 3 characters long.", db)
      else if length password <? 8 then
        (failure "Password must be at least 8 characters long.", db)
      else
        let hash := _hash_password password in
        let (uid, db) := add_user name hash mail is_first_user db in
        if (uid =? -1)%Z then
          (failure "Username or email already exists.", db)
        else
          let (token_used_successfully, db) :=
            if is_first_user then (true, db)
            else use_invite_link (default [] invite_token) uid now' db in
          let u := get_user_by_id uid db in
          let msg :=
            if negb is_first_user && negb token_used_successfully then
              "User registered successfully, but there was an issue marking the invite token as used."
            else if is_first_user then
              "Administrator account registered successfully."
            else "User registered successfully." in
          ({| success := true; message := py msg; user := u |}, db)
  end.

End Register.




Section Login.

(** [_check_password]: bcrypt's verification of a password against a
    stored hash. *)
Variable _check_password : str → str → bool.

(** [login_user] *)
Definition login_user (name password : str) (db : DB) : RegistrationResult :=
  match get_user_by_username name db with
  | None => failure "Invalid username or password."
  | Some u =>
      if _check_password password (password_hash u) then
        {| success := true; message := py "Login successful.";
           user := Some u |}
      else failure "Invalid username or password."
  end.

End Login.

End AuthManager.

(** ** Exceptions

    The extraction methods wrap library calls in [try ... except
    Exception as e]. A call either returns a value or raises an exception
    [e], of which the handlers only use the text [str(e)]. *)

Module PyExc.

Inductive outcome (A : Type) : Type :=
| returned (a : A)
| raised (e : str).
Arguments returned {A} a.
Arguments raised {A} e.

Definition and_then {A B} (m : outcome A) (k : A → outcome B) : outcome B :=
  match m with
  | returned a => k a
  | raised e => raised e
  end.

(** [try: return body  except Exception as e: return handler(str(e))] *)
Definition try_except {A} (body : outcome A) (handler : str → A) : A :=
  match body with
  | returned a => a
  | raised e => handler e
  end.

Definition did_raise {A} (m : outcome A) : bool :=
  match m with
  | returned _ => false
  | raised _ => true
  end.

Definition newline : ascii := ascii_of_nat 10.

(** [sep.join(l)] *)
Fixpoint join (sep : str) (l : list str) : str :=
  match l with
  | [] => []
  | [x] => x
  | x :: l' => x ++ sep ++ join sep l'
  end.

End PyExc.

Declare Scope exc_scope.
Delimit Scope exc_scope with exc.
Notation "x <- m ; k" := (PyExc.and_then m (λ x, k))
  (at level 20, m at level 100, k at level 200, only parsing) : exc_scope.

(** ** [os.path] *)

Module PyPath.
Import PyStr.

(** [s.rfind(c)] for a character [c]: the index of its last occurrence,
    or -1. *)
Fixpoint rfind (c : ascii) (s : str) : Z :=
  match s with
  | [] => (-1)%Z
  | x :: s' =>
      let i := rfind c s' in
      if (0 <=? i)%Z then (i + 1)%Z
      else if bool_decide (x = c) then 0%Z else (-1)%Z
  end.

(** [os.path.splitext] of [posixpath]: the extension starts at the
    last dot of the last component, unless only dots come before it in
    the component. *)
Definition splitext (p : str) : str * str :=
  let sepIndex := rfind "/" p in
  let dotIndex := rfind "." p in
  if (sepIndex <? dotIndex)%Z then
    let filenameIndex := Z.to_nat (sepIndex + 1) in
    let dot := Z.to_nat dotIndex in
    if forallb (λ c, bool_decide (c = "."%char))
         (take (dot - filenameIndex) (drop filenameIndex p))
    then (p, [])
    else (take dot p, drop dot p)
  else (p, []).

(** [os.path.join(a, b)] of [posixpath]. *)
Definition join (a b : str) : str :=
  if startswith (py "/") b then b
  else if bool_decide (a = []) || bool_decide (last a = Some "/"%char)
  then a ++ b
  else a ++ py "/" ++ b.

End PyPath.

(** ** [image_handler.py] *)

Module ImageHandler.
Import PyStr PyExc.
Local Open Scope exc_scope.

Section Libraries.
(** Pillow and pytesseract. *)
Variable Image : Type.
Variable mode : Image → str.
Variable Image_open : str → outcome Image.
Variable convert : Image → str → outcome Image.
Variable image_to_string : Image → outcome str.

(** The block under [try] in [extract_text]. *)
Definition extract_text_body (image_path : str) : outcome str :=
  img <- Image_open image_path ;
  img <- (if bool_decide (mode img = py "RGBA")
          then convert img (py "RGB") else returned img) ;
  image_to_string img.

(** [extract_text] *)
Definition extract_text (image_path : str) : str :=
  try_except (extract_text_body image_path)
    (λ e, py "Error extracting text: " ++ e).

(** An uploaded file, [Image.open] on it, and [img.save]. *)
Variable Upload : Type.
Variable Image_open_upload : Upload → outcome Image.
Variable Image_save : Image → str → outcome unit.

(** [save_image] *)
Definition save_image (upload_folder : str) (image_file : Upload)
    (filename : str) : outcome str :=
  let file_path := PyPath.join upload_folder filename in
  img <- Image_open_upload image_file ;
  _ <- Image_save img file_path ;
  returned file_path.

(** [process_image] *)
Definition process_image (upload_folder : str) (image_file : Upload)
    (filename : str) : outcome (str * str) :=
  file_path <- save_image upload_folder image_file filename ;
  returned (file_path, extract_text file_path).

End Libraries.

End ImageHandler.

(** ** [docx_handler.py] *)

Module DOCXHandler.
Import PyStr PyExc.
Local Open Scope exc_scope.

(** What python-docx reads from a file: the texts of the paragraphs and,
    table by table and row by row, the texts of the cells. *)
Record Document := {
  paragraphs : list str;
  tables : list (list (list str))
}.

Section Libraries.
Variable docx_Document : str → outcome Document.

(** The block under [try] in [extract_text]. *)
Definition extract_text_body (docx_path : str) : outcome str :=
  doc <- docx_Document docx_path ;
  let full_text :=
    paragraphs doc ++
    flat_map (λ table, map (join (py " | ")) table) (tables doc) in
  returned (join [newline] full_text).

(** [extract_text] *)
Definition extract_text (docx_path : str) : str :=
  try_except (extract_text_body docx_path)
    (λ e, py "Error extracting text: " ++ e).

(** An uploaded file, and what opening the file at a path for writing
    and writing what is read from the upload does. *)
Variable Upload : Type.
Variable write_file : str → Upload → outcome unit.

(** [save_docx] *)
Definition save_docx (upload_folder : str) (docx_file : Upload)
    (filename : str) : outcome str :=
  let file_path := PyPath.join upload_folder filename in
  _ <- write_file file_path docx_file ;
  returned file_path.

(** [process_docx] *)
Definition process_docx (upload_folder : str) (docx_file : Upload)
    (filename : str) : outcome (str * str) :=
  file_path <- save_docx upload_folder docx_file filename ;
  returned (file_path, extract_text file_path).

End Libraries.

End DOCXHandler.

(** ** [pdf_handler.py] *)

Module PDFHandler.
Import PyStr PyExc.
Local Open Scope exc_scope.

(** A [PyPDF2.PdfReader]. *)
Record Reader (Page : Type) := {
  is_encrypted : bool;
  pages : list Page
}.
Arguments is_encrypted {Page} _.
Arguments pages {Page} _.

(** The text returned for an encrypted document. *)
Definition encrypted_notice : str :=
  py "This PDF is encrypted and requires a password for text extraction.".

Section Libraries.
(** The file system, PyPDF2 and the [pdftotext] program. *)
Variables File Page : Type.
Variable open_rb : str → outcome File.
Variable PdfReader : File → outcome (Reader Page).
Variable page_extract_text : Page → outcome str.
Variable NamedTemporaryFile : outcome str.
Variable run_pdftotext : str → str → outcome (Z * str).
Variable read_text : str → outcome str.
Variable unlink : str → outcome unit.

(** The loop over the pages: [text += page.extract_text() + "\n\n"]. *)
Fixpoint pages_text (ps : list Page) (text : str) : outcome str :=
  match ps with
  | [] => returned text
  | p :: ps' =>
      t <- page_extract_text p ;
      pages_text ps' (text ++ t ++ [newline; newline])
  end.

(** The block under [try] in [extract_text_with_pypdf2]. *)
Definition pypdf2_body (pdf_path : str) : outcome str :=
  file <- open_rb pdf_path ;
  reader <- PdfReader file ;
  if is_encrypted reader then returned encrypted_notice
  else pages_text (pages reader) [].

(** [extract_text_with_pypdf2] *)
Definition extract_text_with_pypdf2 (pdf_path : str) : str :=
  try_except (pypdf2_body pdf_path)
    (λ e, py "Error extracting text with PyPDF2: " ++ e).

(** The block under [try] in [extract_text_with_pdftotext].
    [subprocess.run] returns the exit status with the text of the
    standard error stream. *)
Definition pdftotext_body (pdf_path : str) : outcome str :=
  temp_path <- NamedTemporaryFile ;
  result <- run_pdftotext pdf_path temp_path ;
  if bool_decide (fst result ≠ 0%Z)
  then returned (py "Error using pdftotext: " ++ snd result)
  else
    text <- read_text temp_path ;
    _ <- unlink temp_path ;
    returned text.

(** [extract_text_with_pdftotext] *)
Definition extract_text_with_pdftotext (pdf_path : str) : str :=
  try_except (pdftotext_body pdf_path)
    (λ e, py "Error extracting text with pdftotext: " ++ e).

(** [process_pdf], for an upload that [save_pdf] has stored at
    [file_path]. *)
Definition process_pdf (file_path : str) : str * str :=
  let extracted_text := extract_text_with_pdftotext file_path in
  let extracted_text :=
    if negb (nonempty extracted_text) || contains (py "Error") extracted_text
    then extract_text_with_pypdf2 file_path
    else extracted_text in
  (file_path, extracted_text).

(** The ways in which an extraction fails without an exception: the
    reader could be built and reports an encrypted document; [pdftotext]
    ran and left with a non-zero status. *)
Definition pdf_is_encrypted (pdf_path : str) : bool :=
  match (file <- open_rb pdf_path ; PdfReader file) with
  | returned reader => is_encrypted reader
  | raised _ => false
  end.

Definition pdftotext_exit_nonzero (pdf_path : str) : bool :=
  match (temp_path <- NamedTemporaryFile ;
         run_pdftotext pdf_path temp_path) with
  | returned result => bool_decide (fst result ≠ 0%Z)
  | raised _ => false
  end.

(** An extraction has failed when the guarded block raised, when the
    document is encrypted, or when the external program reported an
    error. *)
Definition pypdf2_failed (pdf_path : str) : bool :=
  did_raise (pypdf2_body pdf_path) || pdf_is_encrypted pdf_path.

Definition pdftotext_failed (pdf_path : str) : bool :=
  did_raise (pdftotext_body pdf_path) || pdftotext_exit_nonzero pdf_path.

(** An uploaded file, and what opening the file at a path for writing
    and writing what is read from the upload does. *)
Variable Upload : Type.
Variable write_file : str → Upload → outcome unit.

(** [save_pdf] *)
Definition save_pdf (upload_folder : str) (pdf_file : Upload)
    (filename : str) : outcome str :=
  let file_path := PyPath.join upload_folder filename in
  _ <- write_file file_path pdf_file ;
  returned file_path.

(** [process_pdf] with its first step, [save_pdf]. *)
Definition save_and_process_pdf (upload_folder : str) (pdf_file : Upload)
    (filename : str) : outcome (str * str) :=
  file_path <- save_pdf upload_folder pdf_file filename ;
  returned (process_pdf file_path).

End Libraries.

End PDFHandler.

(** ** [upload_manager.py] *)

Module UploadManager.
Import PyStr PyExc.

(** The dictionary that [process_upload] returns. *)
Record FileInfo := {
  original_filename : str;
  saved_filename : str;
  file_type : str;
  file_path : option str;
  extracted_text : option str;
  success : bool;
  error : option str
}.

(** [s.lstrip('.')] *)
Fixpoint lstrip_dots (s : str) : str :=
  match s with
  | c :: s' => if bool_decide (c = "."%char) then lstrip_dots s' else s
  | [] => []
  end.

(** [file_info["error"] = e] *)
Definition with_error (file_info : FileInfo) (e : str) : FileInfo :=
  {| original_filename := original_filename file_info;
     saved_filename := saved_filename file_info;
     file_type := file_type file_info;
     file_path := file_path file_info;
     extracted_text := extracted_text file_info;
     success := success file_info;
     error := Some e |}.

(** The folders that [__init__] gives to the three handlers. *)
Definition image_folder (base_upload_folder : str) : str :=
  PyPath.join base_upload_folder (py "images").

Definition pdf_folder (base_upload_folder : str) : str :=
  PyPath.join base_upload_folder (py "pdfs").

Definition docx_folder (base_upload_folder : str) : str :=
  PyPath.join base_upload_folder (py "docx").

Section Handlers.
(** An uploaded file, and [process_image], [process_pdf] and
    [process_docx] of the three handlers. *)
Variable Upload : Type.
Variable process_image process_pdf process_docx
  : Upload → str → outcome (str * str).

(** [process_upload]. [hex] is the value of [uuid.uuid4().hex]. *)
Definition process_upload (hex : str) (file : Upload)
    (original_filename : str) : FileInfo :=
  let file_ext := lower (snd (PyPath.splitext original_filename)) in
  let unique_filename := hex ++ file_ext in
  let file_info :=
    {| original_filename := original_filename;
       saved_filename := unique_filename;
       file_type := lstrip_dots file_ext;
       file_path := None;
       extracted_text := None;
       success := false;
       error := None |} in
  (* the assignments after a handler has returned, and the [except]
     clause for one that has raised *)
  let handled (file_type : str) (processed : outcome (str * str))
      : FileInfo :=
    match processed with
    | returned (file_path, extracted_text) =>
        {| original_filename := original_filename;
           saved_filename := unique_filename;
           file_type := file_type;
           file_path := Some file_path;
           extracted_text := Some extracted_text;
           success := true;
           error := None |}
    | raised e => with_error file_info e
    end in
  if bool_decide (lower file_ext ∈ map py [".jpg"; ".jpeg"; ".png"]) then
    handled (py "image") (process_image file unique_filename)
  else if bool_decide (lower file_ext = py ".pdf") then
    handled (py "pdf") (process_pdf file unique_filename)
  else if bool_decide (lower file_ext = py ".docx") then
    handled (py "docx") (process_docx file unique_filename)
  else
    with_error file_info (py "Unsupported file type: " ++ file_ext).

End Handlers.

(** [get_file_path] *)
Definition get_file_path (base_upload_folder filename file_type : str)
    : option str :=
  if bool_decide (file_type = py "image") then
    Some (PyPath.join (image_folder base_upload_folder) filename)
  else if bool_decide (file_type = py "pdf") then
    Some (PyPath.join (pdf_folder base_upload_folder) filename)
  else if bool_decide (file_type = py "docx") then
    Some (PyPath.join (docx_folder base_upload_folder) filename)
  else None.

End UploadManager.

(** ** [database.py]: the quiz tables *)

Module QuizTables.
Import PyStr QuizGenerator.

(** A row of [quizzes]. The time stamps, which no operation below
    reads, are left out of all four tables. *)
Record QuizRow := {
  quiz_id : nat;
  quiz_title : str;
  quiz_source_material : str;
  quiz_created_by : option Z
}.

(** A row of [questions]: the quiz it is filed under and the columns
    [question_text], [question_type], [correct_answer] and [options],
    the latter as the list that the JSON text encodes. *)
Record QuestionRow := {
  question_row_id : nat;
  of_quiz : Z;
  asked : Question
}.

(** A row of [quiz_attempts]; [score] and [max_score] are [NULL] until
    the attempt is completed. *)
Record Attempt := {
  attempt_id : nat;
  attempt_quiz : Z;
  attempt_user : Z;
  score : option Z;
  max_score : option Z
}.

(** A row of [question_responses]. *)
Record ResponseRow := {
  response_id : nat;
  of_attempt : Z;
  of_question : Z;
  user_response : str;
  was_correct : bool
}.

(** The four tables, each with the last row id that its
    [AUTOINCREMENT] key has handed out. SQLite does not enforce the
    [FOREIGN KEY] clauses on the connection that [get_connection]
    opens, so a reference may name a row that does not exist. *)
Record QuizDB := {
  quizzes : list QuizRow;
  quizzes_seq : nat;
  question_rows : list QuestionRow;
  question_rows_seq : nat;
  quiz_attempts : list Attempt;
  quiz_attempts_seq : nat;
  question_responses : list ResponseRow;
  question_responses_seq : nat
}.

(** [create_quiz] *)
Definition create_quiz (title source_material : str) (created_by : option Z)
    (db : QuizDB) : Z * QuizDB :=
  let id := quizzes_seq db + 1 in
  (Z.of_nat id,
   {| quizzes := quizzes db ++
        [{| quiz_id := id; quiz_title := title;
            quiz_source_material := source_material;
            quiz_created_by := created_by |}];
      quizzes_seq := id;
      question_rows := question_rows db;
      question_rows_seq := question_rows_seq db;
      quiz_attempts := quiz_attempts db;
      quiz_attempts_seq := quiz_attempts_seq db;
      question_responses := question_responses db;
      question_responses_seq := question_responses_seq db |}).

(** [add_question] *)
Definition add_question (quiz : Z) (q : Question) (db : QuizDB)
    : Z * QuizDB :=
  let id := question_rows_seq db + 1 in
  (Z.of_nat id,
   {| quizzes := quizzes db;
      quizzes_seq := quizzes_seq db;
      question_rows := question_rows db ++
        [{| question_row_id := id; of_quiz := quiz; asked := q |}];
      question_rows_seq := id;
      quiz_attempts := quiz_attempts db;
      quiz_attempts_seq := quiz_attempts_seq db;
      question_responses := question_responses db;
      question_responses_seq := question_responses_seq db |}).

(** [get_quiz_with_questions]: the row of the quiz and the rows of
    [questions] filed under it, in the order of their ids (the table is
    read in the order of its key). *)
Definition get_quiz_with_questions (quiz : Z) (db : QuizDB)
    : option (QuizRow * list QuestionRow) :=
  match List.find (λ r, bool_decide (Z.of_nat (quiz_id r) = quiz))
          (quizzes db) with
  | None => None
  | Some row =>
      Some (row,
            List.filter (λ r, bool_decide (of_quiz r = quiz))
              (question_rows db))
  end.

(** [start_quiz_attempt] *)
Definition start_quiz_attempt (quiz user : Z) (db : QuizDB) : Z * QuizDB :=
  let id := quiz_attempts_seq db + 1 in
  (Z.of_nat id,
   {| quizzes := quizzes db;
      quizzes_seq := quizzes_seq db;
      question_rows := question_rows db;
      question_rows_seq := question_rows_seq db;
      quiz_attempts := quiz_attempts db ++
        [{| attempt_id := id; attempt_quiz := quiz; attempt_user := user;
            score := None; max_score := None |}];
      quiz_attempts_seq := id;
      question_responses := question_responses db;
      question_responses_seq := question_responses_seq db |}).

(** [record_question_response] *)
Definition record_question_response (attempt question : Z)
    (response : str) (is_correct : bool) (db : QuizDB) : Z * QuizDB :=
  let id := question_responses_seq db + 1 in
  (Z.of_nat id,
   {| quizzes := quizzes db;
      quizzes_seq := quizzes_seq db;
      question_rows := question_rows db;
      question_rows_seq := question_rows_seq db;
      quiz_attempts := quiz_attempts db;
      quiz_attempts_seq := quiz_attempts_seq db;
      question_responses := question_responses db ++
        [{| response_id := id; of_attempt := attempt;
            of_question := question; user_response := response;
            was_correct := is_correct |}];
      question_responses_seq := id |}).

(** [complete_quiz_attempt]: the [UPDATE] touches the rows with the
    given id, and the method returns [True] whether there is one or
    not. *)
Definition complete_quiz_attempt (attempt : Z) (points max : Z)
    (db : QuizDB) : bool * QuizDB :=
  (true,
   {| quizzes := quizzes db;
      quizzes_seq := quizzes_seq db;
      question_rows := question_rows db;
      question_rows_seq := question_rows_seq db;
      quiz_attempts :=
        map (λ a, if bool_decide (Z.of_nat (attempt_id a) = attempt)
                  then {| attempt_id := attempt_id a;
                          attempt_quiz := attempt_quiz a;
                          attempt_user := attempt_user a;
                          score := Some points; max_score := Some max |}
                  else a)
          (quiz_attempts db);
      quiz_attempts_seq := quiz_attempts_seq db;
      question_responses := question_responses db;
      question_responses_seq := question_responses_seq db |}).

(** What [AUTOINCREMENT] keeps true of the tables: the ids of a table
    are distinct and none is beyond the last one handed out. *)
Definition keys_consistent (db : QuizDB) : Prop :=
  NoDup (map quiz_id (quizzes db))
  ∧ Forall (λ r, quiz_id r ≤ quizzes_seq db) (quizzes db)
  ∧ NoDup (map question_row_id (question_rows db))
  ∧ Forall (λ r, question_row_id r ≤ question_rows_seq db) (question_rows db)
  ∧ NoDup (map attempt_id (quiz_attempts db))
  ∧ Forall (λ a, attempt_id a ≤ quiz_attempts_seq db) (quiz_attempts db)
  ∧ NoDup (map response_id (question_responses db))
  ∧ Forall (λ r, response_id r ≤ question_responses_seq db)
      (question_responses db).

(** No question is filed under a quiz that is yet to be created. *)
Definition questions_filed (db : QuizDB) : Prop :=
  Forall (λ r, (of_quiz r ≤ Z.of_nat (quizzes_seq db))%Z) (question_rows db).

(** No completed attempt has more points than its maximum. *)
Definition scores_within_max (db : QuizDB) : Prop :=
  Forall (λ a, ∀ p m, score a = Some p → max_score a = Some m →
                 (0 ≤ p ≤ m)%Z)
    (quiz_attempts db).

End QuizTables.

(** ** [quiz_component.py]: storing, taking and submitting a quiz *)

Module QuizSession.
Import PyStr QuizGenerator QuizComponent QuizTables.

(** The loop of [render_quiz_generator] that files the questions of
    the quiz. *)
Fixpoint add_questions (quiz : Z) (qs : list Question) (db : QuizDB)
    : QuizDB :=
  match qs with
  | [] => db
  | q :: qs' => add_questions quiz qs' (snd (add_question quiz q db))
  end.

(** The rows that the loop appends to [questions] when the last id
    handed out is [from]. *)
Definition filed (quiz : Z) (from : nat) (qs : list Question)
    : list QuestionRow :=
  imap (λ k q, {| question_row_id := from + 1 + k; of_quiz := quiz;
                  asked := q |}) qs.

(** The part of [render_quiz_generator] that stores the generated quiz
    for the user who is logged in, with the id of the quiz and the id
    of the attempt that it starts. *)
Definition store_quiz (quiz : Quiz) (user : Z) (db : QuizDB)
    : (Z * Z) * QuizDB :=
  let '(quiz_id, db) :=
    create_quiz (title quiz) (source_material quiz) (Some user) db in
  let db := add_questions quiz_id (questions quiz) db in
  let '(attempt_id, db) := start_quiz_attempt quiz_id user db in
  ((quiz_id, attempt_id), db).

(** [st.session_state.quiz_responses]: a dictionary, that is the
    entries with the order in which their keys were first stored. *)
Record Responses := {
  entries : gmap nat Response;
  key_order : list nat
}.

Definition no_responses : Responses :=
  {| entries := ∅; key_order := [] |}.

(** The body of the loop of [render_quiz_taking] on the dictionary: a
    key that is new goes to the end of the order. *)
Definition store_response (i : nat) (question : Question)
    (widget : option str) (rs : Responses) : Responses :=
  let entries' := record_response i question widget (entries rs) in
  {| entries := entries';
     key_order :=
       if bool_decide (i ∈ dom (entries rs)) then key_order rs
       else if bool_decide (i ∈ dom entries') then key_order rs ++ [i]
       else key_order rs |}.

(** The loop of [render_quiz_taking] over
    [enumerate(quiz['questions'])], from index [i] on; [widget i] is
    the value of the widget with the key [q_i]. *)
Fixpoint answer_loop (i : nat) (qs : list Question)
    (widget : nat → option str) (rs : Responses) : Responses :=
  match qs with
  | [] => rs
  | q :: qs' =>
      answer_loop (S i) qs' widget (store_response i q (widget i) rs)
  end.

(** An entry of [results['questions']]. *)
Record QuestionResult := {
  result_text : str;
  result_type : QuestionType;
  result_answer : str;
  result_response : str;
  result_is_correct : bool
}.

(** [st.session_state.quiz_results], without the percentage [score],
    a floating-point number. *)
Record Results := {
  correct_count : nat;
  total_questions : nat;
  question_results : list QuestionResult
}.

(** [responses.values()] *)
Definition values (rs : Responses) : list Response :=
  omap (λ i, entries rs !! i) (key_order rs).

(** The loop of [_process_quiz_submission] over
    [enumerate(quiz['questions'])], from index [i] on. *)
Fixpoint detailed_results (i : nat) (qs : list Question) (rs : Responses)
    : list QuestionResult :=
  match qs with
  | [] => []
  | q :: qs' =>
      let response := entries rs !! i in
      {| result_text := question_text q;
         result_type := question_type q;
         result_answer := correct_answer q;
         result_response :=
           from_option QuizComponent.response (py "No answer") response;
         result_is_correct := from_option is_correct false response |}
      :: detailed_results (S i) qs' rs
  end.

(** The loop of [_process_quiz_submission] over [responses.items()]:
    the index of the question stands for its id. *)
Definition record_responses (attempt : Z) (rs : Responses) (db : QuizDB)
    : QuizDB :=
  foldl (λ db i,
           match entries rs !! i with
           | Some r =>
               snd (record_question_response attempt (Z.of_nat i)
                      (response r) (is_correct r) db)
           | None => db
           end)
    db (key_order rs).

(** [_process_quiz_submission]. [attempt] is
    [st.session_state.quiz_attempt_id] when a user is logged in and the
    id is set. *)
Definition _process_quiz_submission (quiz : Quiz) (rs : Responses)
    (attempt : option Z) (db : QuizDB) : Results * QuizDB :=
  let correct_count := length (List.filter is_correct (values rs)) in
  let total_questions := length (questions quiz) in
  let results :=
    {| correct_count := correct_count;
       total_questions := total_questions;
       question_results := detailed_results 0 (questions quiz) rs |} in
  match attempt with
  | Some attempt_id =>
      let db := record_responses attempt_id rs db in
      let db :=
        snd (complete_quiz_attempt attempt_id (Z.of_nat correct_count)
               (Z.of_nat total_questions) db) in
      (results, db)
  | None => (results, db)
  end.

(** [render_quiz_taking] for a current quiz: the widgets are read and,
    if the button is pressed, the quiz is submitted unless there are
    fewer responses than questions. The result is the dictionary of
    responses with what the submission gave. *)
Definition render_quiz_taking (quiz : Quiz) (widget : nat → option str)
    (submit : bool) (rs : Responses) (attempt : option Z) (db : QuizDB)
    : Responses * option Results * QuizDB :=
  let rs := answer_loop 0 (questions quiz) widget rs in
  if submit then
    if size (entries rs) <? length (questions quiz) then (rs, None, db)
    else
      let '(results, db) := _process_quiz_submission quiz rs attempt db in
      (rs, Some results, db)
  else (rs, None, db).

(** The order of the keys goes with the entries. *)
Definition ordered (rs : Responses) : Prop :=
  NoDup (key_order rs) ∧ ∀ i, i ∈ key_order rs ↔ i ∈ dom (entries rs).

(** The dictionary holds responses to questions of the quiz only, and
    its order lists its keys. *)
Definition responses_for (quiz : Quiz) (rs : Responses) : Prop :=
  NoDup (key_order rs)
  ∧ (∀ i, i ∈ key_order rs ↔ i ∈ dom (entries rs))
  ∧ ∀ i, i ∈ dom (entries rs) → i < length (questions quiz).

End QuizSession.

(** ** The data model of generated quizzes *)

Module QuizInvariants.
Import PyStr QuizGenerator.

(** The data model of a question of a quiz made from [content]: a
    multiple-choice question offers four options with the answer among
    them, and the answer is a term of more than four characters; a
    short-answer question has no options and its answer is a sentence of
    the content. *)
Definition well_formed (content : str) (q : Question) : Prop :=
  match question_type q with
  | multiple_choice =>
      4 < length (correct_answer q)
      ∧ ∃ opts, options q = Some opts ∧ length opts = 4
                ∧ In (correct_answer q) opts
  | short_answer =>
      options q = None ∧ In (correct_answer q) (sentences_of content)
  end.

(** A multiple-choice question built from [fact]: the answer is a word
    of the fact and the text is the fact with the answer blanked. *)
Definition built_from (q : Question) (fact : str) : Prop :=
  question_type q = multiple_choice
  ∧ In (correct_answer q) (split fact)
  ∧ question_text q = replace fact (correct_answer q) blank.

(** The strong candidates of [_extract_key_facts] and the sentences
    that are none of them. *)
Definition strong_facts (content : str) : list str :=
  List.filter is_fact_sentence (sentences_of content).

Definition regular_sentences (content : str) : list str :=
  List.filter (λ s, bool_decide (s ∉ strong_facts content))
    (sentences_of content).

(** The characters that [_preprocess_content] lets through: word
    characters, the space, and the punctuation marks of its pattern. *)
Definition kept_char (c : ascii) : bool :=
  is_word c || bool_decide (c = " "%char)
  || bool_decide (c ∈ py ".,;:?!()-").

(** The order of the sentences that fill up the fact list: longer ones
    first. *)
Definition longer_first (a b : str) : Prop := length b ≤ length a.




End QuizInvariants.

(** ** Concrete inputs used in the examples below *)

Module Examples.
Import PyRandom QuizGenerator Database PDFHandler.

(** A fact in which the term asked about occurs twice. *)
Definition energy_fact : str :=
  py "the energy of sunlight becomes chemical energy".

(** The question built from it when every random draw is 0. *)
Definition energy_question : Question :=
  {| question_text := py "the ________ of sunlight becomes chemical ________";
     question_type := multiple_choice;
     correct_answer := py "energy";
     options := Some (map py ["energy"; "sunlight"; "becomes"; "chemical"]) |}.

(** The text of the example of the specification. *)
Definition cell_content : str :=
  py "The mitochondria is the powerhouse of the cell. Ribosomes are are responsible for protein synthesis.".

(** A short-answer question whose expected answer has no word. *)
Definition wordless_question : Question :=
  {| question_text := py "Explain the following concept: ";
     question_type := short_answer;
     correct_answer := [];
     options := None |}.


(** The invite of [sample_db]: it expires at instant 100. *)
Definition sample_invite : Invite :=
  {| invite_id := 1; token := py "tok"; invite_email := None;
     created_by := 1; expires_at := Some 100%Z; used := false;
     used_by := None |}.

(** A database with one administrator and one invite. *)
Definition sample_db : DB :=
  {| users := [{| user_id := 1; username := py "admin";
                  password_hash := py "$2b$12$"; email := None;
                  is_admin := true |}];
     users_seq := 1;
     invite_links := [sample_invite];
     invite_links_seq := 1 |}.

(** A stand-in for bcrypt. *)
Definition sample_hash (password : str) : str := py "$2b$12$" ++ password.

(** What PyPDF2 makes of an encrypted document. *)
Definition locked_reader : Reader unit :=
  {| is_encrypted := true; pages := [] |}.

(** The quiz that [generate_quiz] makes of [cell_content] when two
    questions are asked for and every random draw is 0. *)
Definition cells_quiz : Quiz :=
  {| title := py "Cells";
     source_material := cell_content;
     questions :=
       [{| question_text := py "The ________ is the powerhouse of the cell";
           question_type := multiple_choice;
           correct_answer := py "mitochondria";
           options :=
             Some (map py ["mitochondria"; "powerhouse"; "responsible";
                           "option"]) |};
        {| question_text := py "What are Ribosomes are?";
           question_type := short_answer;
           correct_answer :=
             py "Ribosomes are are responsible for protein synthesis";
           options := None |}] |}.

(** What a user enters who answers both questions of [cells_quiz]. *)
Definition cells_answers (i : nat) : option str :=
  match i with
  | 0 => Some (py "mitochondria")
  | _ => Some (py "ribosomes make protein")
  end.

(** A stand-in for bcrypt's check of a password against a hash. *)
Definition sample_check (password hashed : str) : bool :=
  bool_decide (hashed = sample_hash password).

(** Quiz tables without rows. *)
Definition empty_quiz_db : QuizTables.QuizDB :=
  {| QuizTables.quizzes := []; QuizTables.quizzes_seq := 0;
     QuizTables.question_rows := []; QuizTables.question_rows_seq := 0;
     QuizTables.quiz_attempts := []; QuizTables.quiz_attempts_seq := 0;
     QuizTables.question_responses := [];
     QuizTables.question_responses_seq := 0 |}.

(** Quiz tables with one quiz and an open attempt at it. *)
Definition sample_quiz_db : QuizTables.QuizDB :=
  {| QuizTables.quizzes :=
       [{| QuizTables.quiz_id := 1; QuizTables.quiz_title := py "Cells";
           QuizTables.quiz_source_material := cell_content;
           QuizTables.quiz_created_by := Some 1%Z |}];
     QuizTables.quizzes_seq := 1;
     QuizTables.question_rows := [];
     QuizTables.question_rows_seq := 0;
     QuizTables.quiz_attempts :=
       [{| QuizTables.attempt_id := 1; QuizTables.attempt_quiz := 1%Z;
           QuizTables.attempt_user := 1%Z; QuizTables.score := None;
           QuizTables.max_score := None |}];
     QuizTables.quiz_attempts_seq := 1;
     QuizTables.question_responses := [];
     QuizTables.question_responses_seq := 0 |}.

(** A value of [uuid.uuid4().hex]. *)
Definition sample_hex : str := py "9f1c2e4ab7d04c6e8a3b5d7f90123456".

(** What PyPDF2 makes of a document of two pages, a page standing for
    its text. *)
Definition two_pages : Reader str :=
  {| is_encrypted := false; pages := [py "First page"; py "Second page"] |}.

End Examples.

(** * Properties *)

(** ** Strings and lists *)

Section Strings.
Import PyStr.

Lemma startswith_app (t s : str) : startswith t (t ++ s) = true.
Proof.
  induction t as [|c t IH]; simpl; [done|].
  by rewrite bool_decide_eq_true_2, IH.
Qed.

Lemma lower_char_not_capital_I (c : ascii) : lower_char c ≠ "I"%char.
Proof.
  destruct c as [[] [] [] [] [] [] [] []]; vm_compute; discriminate.
Qed.

Lemma lower_char_idemp (c : ascii) : lower_char (lower_char c) = lower_char c.
Proof. destruct c as [[] [] [] [] [] [] [] []]; reflexivity. Qed.

Lemma lower_idemp (s : str) : lower (lower s) = lower s.
Proof.
  unfold lower. rewrite map_map. apply map_ext. apply lower_char_idemp.
Qed.

Lemma take_In {A} (n : nat) (l : list A) (x : A) : In x (take n l) → In x l.
Proof.
  revert n. induction l as [|y l IH]; intros [|n]; simpl; try tauto.
  intros [->|H]; [by left|right; by apply (IH n)].
Qed.

Lemma filter_nonempty {A} (p : A → bool) (l : list A) :
  existsb p l = true → List.filter p l ≠ [].
Proof.
  induction l as [|x l IH]; simpl; [done|].
  destruct (p x); [done|]. exact IH.
Qed.

Lemma insert_by_len_In (x y : str) (l : list str) :
  In y (insert_by_len x l) → y = x ∨ In y l.
Proof.
  induction l as [|z l IH]; simpl; [intuition congruence|].
  destruct (length x <? length z); simpl; [|intuition congruence].
  intros [->|H]; [tauto|]. destruct (IH H); tauto.
Qed.

Lemma sorted_by_len_desc_In (y : str) (l : list str) :
  In y (sorted_by_len_desc l) → In y l.
Proof.
  induction l as [|x l IH]; simpl; [done|].
  intros [->|H]%insert_by_len_In; auto.
Qed.

Lemma count_Permutation (x : str) (l1 l2 : list str) :
  l1 ≡ₚ l2 → count x l1 = count x l2.
Proof.
  unfold count. induction 1 as [|y l1 l2 _ IH|y z l|l1 l2 l3 _ IH1 _ IH2];
    simpl; [done| | |congruence].
  - destruct (bool_decide (y = x)); simpl; congruence.
  - by destruct (bool_decide (y = x)), (bool_decide (z = x)).
Qed.

Lemma count_absent (x : str) (l : list str) :
  (∀ y, In y l → y ≠ x) → count x l = 0.
Proof.
  unfold count. induction l as [|y l IH]; simpl; [done|]. intros H.
  rewrite bool_decide_eq_false_2 by (apply H; by left).
  apply IH. intros z Hz. apply H. by right.
Qed.

Lemma replace_from_skip (old new p s : str) :
  replace_from old new (length p) (p ++ s) = replace_from old new 0 s.
Proof. induction p as [|c p IH]; simpl; [by destruct s|done]. Qed.

(** The term stands first in the text: it is replaced and the scan
    goes on behind it. *)
Lemma replace_at_head (t new rest : str) :
  t ≠ [] → replace (t ++ rest) t new = new ++ replace rest t new.
Proof.
  destruct t as [|c t]; [done|]. intros _.
  unfold replace. change ((c :: t) ++ rest) with (c :: (t ++ rest)).
  cbn [replace_from].
  change (c :: (t ++ rest)) with ((c :: t) ++ rest).
  rewrite startswith_app. f_equal.
  replace (length (c :: t) - 1) with (length t) by (simpl; lia).
  apply replace_from_skip.
Qed.

(** The first occurrence of the term is replaced, what stands before it
    is kept, and what stands behind it is treated in the same way. *)
Lemma replace_first_occurrence (t new a rest : str) :
  t ≠ [] →
  no_occurrence_before t a (t ++ rest) = true →
  replace (a ++ t ++ rest) t new = a ++ new ++ replace rest t new.
Proof.
  intros Ht. induction a as [|x a IH]; intros Hno.
  - simpl. by apply replace_at_head.
  - cbn [no_occurrence_before] in Hno.
    apply andb_prop in Hno as [Hhere Hno]. apply negb_true_iff in Hhere.
    specialize (IH Hno). destruct t as [|c t]; [done|].
    unfold replace in IH |- *.
    change ((x :: a) ++ (c :: t) ++ rest) with (x :: (a ++ (c :: t) ++ rest)).
    cbn [replace_from].
    change (x :: (a ++ (c :: t) ++ rest)) with ((x :: a) ++ (c :: t) ++ rest).
    rewrite Hhere. by rewrite IH.
Qed.

(** A text without an occurrence of the term is left as it is. *)
Lemma replace_no_occurrence (t new s : str) :
  contains t s = false → replace s t new = s.
Proof.
  destruct t as [|c t]; [by destruct s|].
  unfold replace. induction s as [|x s IH]; [done|].
  cbn [contains]. intros [Hhere Hrest]%orb_false_elim.
  cbn [replace_from]. rewrite Hhere. by rewrite IH.
Qed.

End Strings.

(** ** The random source *)

Section Random.
Import PyRandom.

Lemma randbelow_lt (n : nat) (r : Rng) : fst (randbelow (S n) r) < S n.
Proof. unfold randbelow. cbn [fst]. apply Nat.mod_upper_bound. lia. Qed.

Lemma choice_In {A} (x : A) (xs : list A) (r : Rng) :
  In (fst (choice x xs r)) (x :: xs).
Proof.
  unfold choice, bind, ret.
  destruct (randbelow (S (length xs)) r) as [i r'] eqn:Hi. simpl.
  pose proof (randbelow_lt (length xs) r) as Hlt. rewrite Hi in Hlt.
  simpl in Hlt. destruct i as [|i]; [by left|].
  right. apply nth_In. lia.
Qed.

(** One step of [sample] on a non-empty population. *)
Lemma sample_step {A} (x : A) (l : list A) (k : nat) (r : Rng) :
  ∃ i r1, i < S (length l)
    ∧ fst (sample (x :: l) (S k) r)
      = nth i (x :: l) x :: fst (sample (delete i (x :: l)) k r1).
Proof.
  cbn [sample]. unfold bind, ret.
  pose proof (randbelow_lt (length l) r) as Hlt.
  cbn [length]. destruct (randbelow (S (length l)) r) as [i r1].
  cbn [fst] in Hlt. exists i, r1. split; [done|].
  by destruct (sample (delete i (x :: l)) k r1).
Qed.

Lemma sample_length {A} (l : list A) (k : nat) (r : Rng) :
  length (fst (sample l k r)) = Nat.min k (length l).
Proof.
  revert l r. induction k as [|k IH]; intros l r; [done|].
  destruct l as [|x l]; [done|].
  destruct (sample_step x l k r) as (i & r1 & Hi & ->).
  cbn [length]. rewrite IH, length_delete; [simpl; lia|].
  apply lookup_lt_is_Some. simpl. lia.
Qed.

Lemma sample_In {A} (l : list A) (k : nat) (r : Rng) (y : A) :
  In y (fst (sample l k r)) → In y l.
Proof.
  revert l r. induction k as [|k IH]; intros l r; [done|].
  destruct l as [|x l]; [done|].
  destruct (sample_step x l k r) as (i & r1 & Hi & ->).
  intros [<-|Hrest].
  - apply nth_In. simpl. lia.
  - apply IH, list_elem_of_In in Hrest.
    apply list_elem_of_In. by apply list_elem_of_delete_inv in Hrest.
Qed.

Lemma shuffle_length {A} (l : list A) (r : Rng) :
  length (fst (shuffle l r)) = length l.
Proof. unfold shuffle. rewrite sample_length. lia. Qed.

Lemma shuffle_Permutation {A} (l : list A) (r : Rng) :
  fst (shuffle l r) ≡ₚ l.
Proof.
  unfold shuffle. remember (length l) as k eqn:Hk.
  revert l r Hk. induction k as [|k IH]; intros l r Hk.
  - by destruct l.
  - destruct l as [|x l]; [done|].
    destruct (sample_step x l k r) as (i & r1 & Hi & ->).
    destruct (lookup_lt_is_Some_2 (x :: l) i) as [y Hy]; [simpl; lia|].
    rewrite (nth_lookup_Some _ _ x _ Hy), IH.
    + symmetry. by apply delete_Permutation.
    + rewrite length_delete by eauto. simpl in Hk |- *. lia.
Qed.

End Random.

(** ** Fact extraction *)

Section FactExtraction.
Import PyStr QuizGenerator.

Lemma word_here_I_lower (s : str) : word_here (py "I") (lower s) = false.
Proof.
  destruct s as [|c s]; [done|].
  unfold word_here. simpl.
  rewrite bool_decide_eq_false_2; [done|].
  intros H. by apply (lower_char_not_capital_I c).
Qed.

(** In a lowercased text the alternative [I] of the pattern never
    matches. *)
Lemma search_capital_I_lower (prev : bool) (ws : list str) (s : str) :
  search_words_from prev (py "I" :: ws) (lower s)
  = search_words_from prev ws (lower s).
Proof.
  revert prev. induction s as [|c s IH]; intros prev; [done|].
  change (lower (c :: s)) with (lower_char c :: lower s).
  cbn [search_words_from existsb].
  change (lower_char c :: lower s) with (lower (c :: s)).
  rewrite word_here_I_lower. simpl. by rewrite IH.
Qed.

(** [C6] The test that selects the strong fact candidates looks for the
    pronouns in the lowercased sentence, where the capital [I] of the
    pattern cannot occur: for every sentence the test is the one that
    only excludes "we" and "you". The sentence "I think this is a very
    good idea" contains the pronoun "I" as a word and neither "we" nor
    "you", and it is classified as a strong candidate, where the
    specification wants it excluded. *)
Theorem fact_filter_keeps_pronoun_I :
  (∀ sentence,
     is_fact_sentence sentence
     = search_words fact_verbs sentence
       && negb (search_words (map py ["we"; "you"]%string) (lower sentence)))
  ∧ (let sentence := py "I think this is a very good idea" in
     search_words [py "I"] sentence = true
     ∧ search_words (map py ["we"; "you"]%string) (lower sentence) = false
     ∧ is_fact_sentence sentence = true).
Proof.
  split; [|by vm_compute].
  intros sentence. unfold is_fact_sentence, search_words, pronouns.
  f_equal. f_equal. apply search_capital_I_lower.
Qed.

Lemma sentences_of_spec (content s : str) :
  In s (sentences_of content)
  ↔ ∃ fragment, In fragment (split_on sentence_end content)
                ∧ s = strip fragment ∧ 20 < length (strip fragment).
Proof.
  unfold sentences_of. rewrite in_map_iff. split.
  - intros (f & <- & Hf). apply filter_In in Hf as [Hin Hlen].
    exists f. by apply Nat.ltb_lt in Hlen.
  - intros (f & Hin & -> & Hlen). exists f. split; [done|].
    apply filter_In. by apply Nat.ltb_lt in Hlen.
Qed.

Lemma key_facts_are_sentences (content s : str) :
  In s (_extract_key_facts content) → In s (sentences_of content).
Proof.
  unfold _extract_key_facts.
  destruct (_ <? 10).
  - rewrite in_app_iff. intros [H|H].
    + by apply filter_In in H as [? _].
    + apply take_In, sorted_by_len_desc_In in H.
      by apply filter_In in H as [? _].
  - intros H. by apply filter_In in H as [? _].
Qed.

(** [C8], as amended. The sentence pool of fact extraction holds exactly
    the stripped fragments of more than 20 characters: a fragment is kept
    if and only if its stripped length is at least 21, so that a fragment
    of exactly 20 characters is discarded; and every fact that
    [_extract_key_facts] returns comes from this pool and is longer than
    20 characters. *)
Theorem fact_length_threshold (content : str) :
  (∀ s, In s (sentences_of content)
        ↔ ∃ fragment, In fragment (split_on sentence_end content)
                      ∧ s = strip fragment ∧ 20 < length (strip fragment))
  ∧ (∀ s, In s (_extract_key_facts content) →
          In s (sentences_of content) ∧ 20 < length s).
Proof.
  split; [intros s; apply sentences_of_spec|].
  intros s Hs%key_facts_are_sentences. split; [done|].
  apply sentences_of_spec in Hs as (f & _ & -> & Hlen). done.
Qed.

(** The threshold at a text with one fragment of 21 characters. *)
Lemma fact_length_threshold_witness :
  In (py "Water boils at 100 Cs")
    (sentences_of (py "Water boils at 100 Cs. Ice melts."))
  ∧ 20 < length (py "Water boils at 100 Cs").
Proof.
  apply (fact_length_threshold (py "Water boils at 100 Cs. Ice melts.")).
  vm_compute. auto.
Defined.

(** [C8] as stated fails: the fragment "Water boils at 100 C" has a
    stripped length of exactly 20 characters, and neither the sentence
    pool nor the list of facts keeps it. *)
Lemma twenty_characters_discarded :
  let fragment := py "Water boils at 100 C" in
  In fragment (split_on sentence_end (py "Water boils at 100 C."))
  ∧ length (strip fragment) = 20
  ∧ sentences_of (py "Water boils at 100 C.") = []
  ∧ _extract_key_facts (py "Water boils at 100 C.") = [].
Proof. vm_compute. auto. Qed.

End FactExtraction.

(** ** Question synthesis *)

Section Synthesis.
Import PyStr PyRandom QuizGenerator Examples.

Lemma multiple_choice_for_fields (text target content : str) (r : Rng) :
  let q := fst (multiple_choice_for text target content r) in
  question_text q = text ∧ question_type q = multiple_choice
  ∧ correct_answer q = target
  ∧ options q
    = Some (fst (let (d, r1) := _generate_distractors target content 3 r in
                 shuffle (target :: d) r1)).
Proof.
  unfold multiple_choice_for, bind, ret.
  destruct (_generate_distractors target content 3 r) as [d r1].
  destruct (shuffle (target :: d) r1) as [o r2]. done.
Qed.

(** What [_generate_multiple_choice_question] returns when it returns a
    question: the answer is a word of the fact of more than four
    characters, and the text is the fact with the answer replaced. *)
Lemma generated_question_fields
    (fact content : str) (r r' : Rng) (q : Question) :
  _generate_multiple_choice_question fact content r = (Some q, r') →
  4 < length (correct_answer q)
  ∧ In (correct_answer q) (split fact)
  ∧ question_text q = replace fact (correct_answer q) blank
  ∧ ∃ r1, options q
          = Some (fst (let (d, r2) :=
                         _generate_distractors (correct_answer q) content 3 r1
                       in shuffle (correct_answer q :: d) r2)).
Proof.
  unfold _generate_multiple_choice_question.
  destruct (List.filter _ (split fact)) as [|t ts] eqn:Hk; [done|].
  unfold bind at 1 2. unfold ret.
  pose proof (choice_In t ts r) as Hin.
  destruct (choice t ts r) as [target r1]. cbn [fst] in Hin.
  pose proof (multiple_choice_for_fields
                (replace fact target blank) target content r1)
    as (Ht & _ & Hc & Ho).
  destruct (multiple_choice_for _ target content r1) as [q' r2].
  cbn [fst] in Ht, Hc, Ho. intros [= <- <-].
  rewrite Hc, Ht, Ho. rewrite <- Hk in Hin.
  apply filter_In in Hin as [Hin Hp].
  apply andb_prop in Hp as [Hlen _]. apply Nat.ltb_lt in Hlen.
  split_and!; [done..|]. by exists r1.
Qed.

(** [C7], as amended. In the multiple-choice synthesis path the question
    text is the fact in which every occurrence of the chosen answer term
    is replaced by the blank marker, from the left and without overlap:
    what stands before the first occurrence is kept, the occurrence
    becomes the marker, and the rest of the fact is treated in the same
    way, so that a second occurrence becomes the marker too; a rest
    without an occurrence is kept as it is. *)
Theorem question_text_blanks_every_occurrence
    (fact content : str) (r r' : Rng) (q : Question) :
  _generate_multiple_choice_question fact content r = (Some q, r') →
  let term := correct_answer q in
  question_text q = replace fact term blank
  ∧ (∀ a rest, fact = a ++ term ++ rest →
       no_occurrence_before term a (term ++ rest) = true →
       question_text q = a ++ blank ++ replace rest term blank)
  ∧ (∀ a b c, fact = a ++ term ++ b ++ term ++ c →
       no_occurrence_before term a (term ++ b ++ term ++ c) = true →
       no_occurrence_before term b (term ++ c) = true →
       question_text q = a ++ blank ++ b ++ blank ++ replace c term blank)
  ∧ (∀ rest, contains term rest = false → replace rest term blank = rest).
Proof.
  intros (Hlen & _ & Htext & _)%generated_question_fields term.
  assert (term ≠ []) as Hne.
  { intros E. subst term. rewrite E in Hlen. simpl in Hlen. lia. }
  split_and!; [done| | |].
  - intros a rest -> Hno. rewrite Htext. by apply replace_first_occurrence.
  - intros a b c -> Ha Hb. rewrite Htext.
    rewrite replace_first_occurrence by done.
    by rewrite replace_first_occurrence by done.
  - intros rest. apply replace_no_occurrence.
Qed.

(** The fact "the energy of sunlight becomes chemical energy" and the
    term "energy": both occurrences become the marker. *)
Lemma question_text_blanks_every_occurrence_witness :
  question_text energy_question
  = py "the " ++ blank ++ py " of sunlight becomes chemical " ++ blank
    ++ replace [] (py "energy") blank.
Proof.
  destruct (question_text_blanks_every_occurrence energy_fact energy_fact
              (tape [])
              (snd (_generate_multiple_choice_question energy_fact energy_fact
                      (tape [])))
              energy_question eq_refl) as (_ & _ & Hboth & _).
  apply (Hboth (py "the ") (py " of sunlight becomes chemical ") []);
    reflexivity.
Defined.

(** [C7] as stated fails: the term "energy" occurs twice in the fact, and
    the second occurrence does not remain in the question text. *)
Lemma later_occurrence_is_blanked :
  fst (_generate_multiple_choice_question energy_fact energy_fact (tape []))
  = Some energy_question
  ∧ correct_answer energy_question = py "energy"
  ∧ question_text energy_question
    = py "the ________ of sunlight becomes chemical ________"
  ∧ question_text energy_question
    ≠ py "the ________ of sunlight becomes chemical energy".
Proof. vm_compute. split_and!; [done..|discriminate]. Qed.

Lemma distractors_length (correct content : str) (r : Rng) :
  length (fst (_generate_distractors correct content 3 r)) = 3.
Proof.
  unfold _generate_distractors.
  destruct (Nat.leb_spec 3 (length (similar_words correct content))).
  - rewrite sample_length. lia.
  - unfold bind, ret.
    pose proof (sample_length generic_distractors
                  (3 - length (similar_words correct content)) r) as Hlen.
    destruct (sample generic_distractors _ r) as [extra r1].
    cbn [fst] in Hlen |- *. rewrite length_take, length_app, Hlen.
    change (length generic_distractors) with 10. lia.
Qed.

Lemma similar_words_differ (correct content d : str) :
  In d (similar_words correct content) → lower d ≠ lower correct.
Proof.
  unfold similar_words. intros Hd%list_elem_of_In.
  apply elem_of_remove_dups, list_elem_of_In, in_map_iff in Hd
    as (w & <- & Hw).
  apply filter_In in Hw as [_ Hp].
  apply andb_prop in Hp as [Hp _]. apply andb_prop in Hp as [_ Hne].
  apply bool_decide_eq_true in Hne. by rewrite lower_idemp.
Qed.

Lemma generic_distractors_lowercase (d : str) :
  In d generic_distractors → lower d = d.
Proof.
  unfold generic_distractors. intros Hd.
  repeat (destruct Hd as [<-|Hd]; [reflexivity|]). destruct Hd.
Qed.

(** A distractor repeats the answer, letter case apart, only when it is
    drawn from the list of generic distractors. *)
Lemma distractors_differ (correct content : str) (r : Rng) (d : str) :
  ¬ In (lower correct) generic_distractors →
  In d (fst (_generate_distractors correct content 3 r)) →
  lower d ≠ lower correct.
Proof.
  intros Hpool. unfold _generate_distractors.
  destruct (3 <=? length (similar_words correct content)).
  - intros Hd%sample_In. by apply similar_words_differ in Hd.
  - unfold bind, ret.
    pose proof (sample_In generic_distractors
                  (3 - length (similar_words correct content)) r) as Hin.
    destruct (sample generic_distractors _ r) as [extra r1].
    cbn [fst] in Hin |- *. intros Hd%take_In.
    apply in_app_iff in Hd as [Hd|Hd].
    + by apply similar_words_differ in Hd.
    + apply Hin in Hd. intros Heq. apply Hpool.
      rewrite <- Heq, generic_distractors_lowercase; done.
Qed.

(** The options of the two multiple-choice generators: there are four of
    them, and when the answer is not one of the generic distractors it is
    among them once and no other option equals it, letter case apart. *)
Lemma multiple_choice_for_options (text target content : str) (r : Rng) :
  ∃ opts, options (fst (multiple_choice_for text target content r)) = Some opts
    ∧ length opts = 4
    ∧ (¬ In (lower target) generic_distractors →
       count target opts = 1
       ∧ ∃ distractors, opts ≡ₚ target :: distractors
           ∧ ∀ d, In d distractors → lower d ≠ lower target).
Proof.
  destruct (multiple_choice_for_fields text target content r)
    as (_ & _ & _ & ->).
  eexists. split; [done|].
  pose proof (distractors_length target content r) as Hlen.
  pose proof (distractors_differ target content r) as Hdiff.
  destruct (_generate_distractors target content 3 r) as [d r1].
  cbn [fst] in Hlen, Hdiff.
  split; [rewrite shuffle_length; simpl; lia|].
  intros Hpool. split.
  - rewrite (count_Permutation _ _ _ (shuffle_Permutation (target :: d) r1)).
    unfold count. simpl. rewrite bool_decide_eq_true_2 by done. simpl.
    f_equal. apply (count_absent target d). intros y Hy Heq.
    apply (Hdiff y Hpool Hy). by rewrite Heq.
  - exists d. split; [apply shuffle_Permutation|]. intros y Hy. by apply Hdiff.
Qed.

(** [C2] On the content "The example is on a mat by the sea." the text
    offers no word close in length to the answer "example", so all three
    distractors are drawn from the generic list, which holds "example":
    for the draws 0, 1 the options are "example", "example", "option",
    "factor". There are four of them, but the answer is among them twice
    and a distractor equals it. *)
Theorem generic_distractor_repeats_answer :
  let content := py "The example is on a mat by the sea." in
  let fact := py "The example is on a mat by the sea" in
  In fact (_extract_key_facts (_preprocess_content content))
  ∧ ∃ q, fst (_generate_multiple_choice_question fact content (tape [0; 1]))
         = Some q
    ∧ correct_answer q = py "example"
    ∧ options q = Some (map py ["example"; "example"; "option"; "factor"]%string)
    ∧ ∀ opts, options q = Some opts →
        length opts = 4 ∧ count (correct_answer q) opts = 2.
Proof.
  split; [vm_compute; auto|].
  eexists. split; [vm_compute; reflexivity|].
  split_and!; [reflexivity..|]. intros opts [= <-]. split; reflexivity.
Qed.

End Synthesis.

(** ** The quota of [generate_quiz] *)

Section Quota.
Import PyStr PyRandom QuizGenerator Examples.

Lemma extract_key_facts_nil (content : str) :
  sentences_of content = [] → _extract_key_facts content = [].
Proof. unfold _extract_key_facts. by intros ->. Qed.

Lemma multiple_choice_loop_no_facts
    (n : nat) (content : str) (qs : list Question) (r : Rng) :
  multiple_choice_loop n content [] qs r = (([], qs), r).
Proof. induction n as [|n IH]; [done|]. exact IH. Qed.

Lemma short_answer_loop_no_facts (n : nat) (qs : list Question) (r : Rng) :
  short_answer_loop n [] qs r = (([], qs), r).
Proof. induction n as [|n IH]; [done|]. exact IH. Qed.

(** Without a sentence of more than 20 characters neither generic
    generator produces a question: a round of the [while] loop leaves
    the list of questions and the random source as they were, and no
    number of rounds ends the loop. *)
Lemma generic_loop_stuck
    (fuel : nat) (content : str) (n : nat) (r : Rng) :
  sentences_of content = [] → 1 ≤ n →
  generic_loop fuel content n [] r = (None, r).
Proof.
  intros Hs Hn. induction fuel as [|fuel IH]; cbn [generic_loop length].
  - destruct (Nat.ltb_spec 0 n); [done|lia].
  - destruct (Nat.ltb_spec 0 n); [|lia].
    cbn [Nat.even]. unfold bind at 1.
    unfold _generate_generic_multiple_choice_question. rewrite Hs.
    cbn [ret append_if]. exact IH.
Qed.

Lemma generate_quiz_stuck
    (fuel : nat) (content title : str) (n : nat) (r : Rng) :
  sentences_of (_preprocess_content content) = [] → 1 ≤ n →
  generate_quiz fuel content title n r = (None, r).
Proof.
  intros Hs Hn. unfold generate_quiz.
  rewrite (extract_key_facts_nil _ Hs).
  unfold bind at 1. rewrite multiple_choice_loop_no_facts.
  unfold bind at 1. rewrite short_answer_loop_no_facts.
  unfold bind at 1. by rewrite generic_loop_stuck.
Qed.

(** [C1] For the content "Short text. Too short!" and three requested
    questions, [generate_quiz] returns no quiz: whatever the random
    source and however many rounds the [while] loop is given, the loop
    has not ended, because no fragment of the content is longer than 20
    characters and both generic generators return [None]. The
    specification wants a quiz of exactly three questions. *)
Theorem short_content_never_fills_quota (fuel : nat) (title : str) (r : Rng) :
  generate_quiz fuel (py "Short text. Too short!") title 3 r = (None, r).
Proof. apply generate_quiz_stuck; [reflexivity|lia]. Qed.

Lemma generic_loop_Some
    (fuel : nat) (content : str) (n : nat) (qs qs' : list Question)
    (r r' : Rng) :
  generic_loop fuel content n qs r = (Some qs', r') → n ≤ length qs'.
Proof.
  revert qs r. induction fuel as [|fuel IH]; intros qs r; cbn [generic_loop].
  - destruct (Nat.ltb_spec (length qs) n); [done|]. by intros [= <- _].
  - destruct (Nat.ltb_spec (length qs) n); [|by intros [= <- _]].
    unfold bind at 1.
    destruct (if Nat.even (length qs) then _ else _) as [q r1].
    apply IH.
Qed.

(** When [generate_quiz] returns, the quiz has the number of questions
    that was asked for. *)
Lemma generate_quiz_quota
    (fuel : nat) (content title : str) (n : nat) (r r' : Rng) (quiz : Quiz) :
  generate_quiz fuel content title n r = (Some quiz, r') →
  length (questions quiz) = n.
Proof.
  unfold generate_quiz. unfold bind at 1.
  destruct (multiple_choice_loop _ _ _ _ r) as [[kf qs] r1].
  unfold bind at 1.
  destruct (short_answer_loop _ kf qs r1) as [[kf' qs'] r2].
  unfold bind at 1.
  destruct (generic_loop fuel _ n qs' r2) as [[qs''|] r3] eqn:Hloop; [|done].
  apply generic_loop_Some in Hloop.
  unfold bind, ret.
  pose proof (shuffle_length qs'' r3) as Hlen.
  destruct (shuffle qs'' r3) as [sh r4]. simpl in Hlen.
  intros [= <- _]. simpl. rewrite length_take. lia.
Qed.

Lemma generic_short_answer_Some (content : str) (r : Rng) :
  sentences_of content ≠ [] →
  ∃ q, fst (_generate_generic_short_answer_question content r) = Some q.
Proof.
  unfold _generate_generic_short_answer_question.
  destruct (sentences_of content) as [|s ss]; [done|]. intros _.
  unfold bind, ret. destruct (choice s ss r) as [sentence r1].
  destruct (choice _ _ r1) as [text r2]. by eexists.
Qed.

Lemma generic_multiple_choice_Some (content : str) (r : Rng) :
  sentences_of content ≠ [] →
  (∀ s, In s (sentences_of content) → has_generic_term s = true) →
  ∃ q, fst (_generate_generic_multiple_choice_question content r) = Some q.
Proof.
  unfold _generate_generic_multiple_choice_question.
  destruct (sentences_of content) as [|s ss]; [done|]. intros _ Hall.
  unfold bind at 1. pose proof (choice_In s ss r) as Hin.
  destruct (choice s ss r) as [sentence r1]. cbn [fst] in Hin.
  pose proof (filter_nonempty _ _ (Hall _ Hin)) as Hk.
  destruct (List.filter _ (split sentence)) as [|t ts]; [done|].
  unfold bind, ret. destruct (choice t ts r1) as [target r2].
  destruct (multiple_choice_for _ target content r2) as [q r3]. by eexists.
Qed.

Lemma generic_loop_fills
    (fuel : nat) (content : str) (n : nat) (qs : list Question) (r : Rng) :
  sentences_of content ≠ [] →
  (∀ s, In s (sentences_of content) → has_generic_term s = true) →
  n - length qs ≤ fuel →
  ∃ qs' r', generic_loop fuel content n qs r = (Some qs', r').
Proof.
  intros Hne Hall. revert qs r.
  induction fuel as [|fuel IH]; intros qs r Hfuel; cbn [generic_loop].
  - destruct (Nat.ltb_spec (length qs) n); [lia|]. by eexists _, _.
  - destruct (Nat.ltb_spec (length qs) n); [|by eexists _, _].
    unfold bind at 1.
    assert (∃ q, fst ((if Nat.even (length qs)
                       then _generate_generic_multiple_choice_question content
                       else _generate_generic_short_answer_question content) r)
                 = Some q) as [q Hq].
    { destruct (Nat.even (length qs)).
      - by apply generic_multiple_choice_Some.
      - by apply generic_short_answer_Some. }
    destruct (Nat.even (length qs)).
    all: match goal with
         | H : fst ?g = Some _ |- _ =>
             destruct g as [q' r1]; cbn [fst] in H; subst q'
         end.
    all: apply IH.
    all: cbn [append_if]; rewrite length_app; simpl; lia.
Qed.

(** With material for the generic questions, that is, when the content
    has a sentence of more than 20 characters and each such sentence has
    a word of more than four letters, [num_questions] rounds of the
    [while] loop are enough and [generate_quiz] returns a quiz of the
    size asked for. *)
Lemma generate_quiz_returns
    (fuel : nat) (content title : str) (n : nat) (r : Rng) :
  sentences_of (_preprocess_content content) ≠ [] →
  (∀ s, In s (sentences_of (_preprocess_content content)) →
        has_generic_term s = true) →
  n ≤ fuel →
  ∃ quiz r', generate_quiz fuel content title n r = (Some quiz, r')
             ∧ length (questions quiz) = n.
Proof.
  intros Hne Hall Hfuel.
  assert (∃ quiz r', generate_quiz fuel content title n r = (Some quiz, r'))
    as (quiz & r' & Hq).
  { unfold generate_quiz. unfold bind at 1.
    destruct (multiple_choice_loop _ _ _ _ r) as [[kf qs] r1].
    unfold bind at 1.
    destruct (short_answer_loop _ kf qs r1) as [[kf' qs'] r2].
    unfold bind at 1.
    destruct (generic_loop_fills fuel _ n qs' r2 Hne Hall) as (qs'' & r3 & ->);
      [lia|].
    unfold bind, ret. destruct (shuffle qs'' r3) as [sh r4]. by eexists _, _. }
  exists quiz, r'. split; [done|]. by eapply generate_quiz_quota.
Qed.

(** The example of the specification: two questions are asked for and
    two are returned, here for the random source that only produces
    zeros. *)
Example cell_quiz :
  ∃ quiz, fst (generate_quiz 2 cell_content (py "Cells") 2 (tape []))
          = Some quiz
    ∧ map question_type (questions quiz) = [multiple_choice; short_answer]
    ∧ map correct_answer (questions quiz)
      = [py "mitochondria";
         py "Ribosomes are are responsible for protein synthesis"]
    ∧ map options (questions quiz)
      = [Some (map py ["mitochondria"; "powerhouse"; "responsible";
                       "option"]%string);
         None].
Proof. eexists. split; [vm_compute; reflexivity|]. by split_and!. Qed.

End Quota.

(** ** Short-answer grading *)

Section Grading.
Import PyStr QuizGenerator QuizComponent Examples.

(** The float comparison of the source is the integer comparison
    [len(correct_terms) <= 2 * overlap]. *)
Lemma short_answer_is_correct_iff (c r : str) :
  short_answer_is_correct c r = true
  ↔ size (terms c) ≤ 2 * size (terms c ∩ terms r).
Proof.
  unfold short_answer_is_correct.
  rewrite Qle_bool_iff. unfold Qle. simpl. lia.
Qed.

Lemma short_answer_is_correct_false (c r : str) :
  short_answer_is_correct c r = false
  ↔ 2 * size (terms c ∩ terms r) < size (terms c).
Proof.
  rewrite <- not_true_iff_false, short_answer_is_correct_iff. lia.
Qed.

Lemma overlap_mono (c r1 r2 : str) :
  terms r1 ⊆ terms r2 →
  size (terms c ∩ terms r1) ≤ size (terms c ∩ terms r2).
Proof.
  intros Hsub. apply subseteq_size.
  intros x [Hc Hr]%elem_of_intersection.
  apply elem_of_intersection. split; [done|by apply Hsub].
Qed.

(** A non-empty text in the text area of a short-answer question is
    graded by [short_answer_is_correct] and stored. *)
Lemma record_short_answer
    (i : nat) (q : Question) (r : str) (m : gmap nat Response) :
  question_type q = short_answer → r ≠ [] →
  record_response i q (Some r) m !! i
  = Some {| question_id := i; response := r;
            is_correct := short_answer_is_correct (correct_answer q) r |}.
Proof.
  intros Hq Hr. unfold record_response. rewrite Hq.
  destruct r as [|c r]; [done|]. apply lookup_insert_eq.
Qed.




(** What is stored for two non-empty submissions follows the same
    order. *)
Lemma recorded_grade_monotone
    (i : nat) (q : Question) (r1 r2 : str) (m1 m2 : gmap nat Response) :
  question_type q = short_answer → r1 ≠ [] → r2 ≠ [] →
  terms r1 ⊆ terms r2 →
  is_correct <$> record_response i q (Some r1) m1 !! i = Some true →
  is_correct <$> record_response i q (Some r2) m2 !! i = Some true.
Proof.
  intros Hq H1 H2 Hsub. rewrite !record_short_answer by done.
  cbn [fmap option_fmap option_map is_correct]. intros [= Hc]. f_equal.
  rewrite short_answer_is_correct_iff in Hc |- *.
  pose proof (overlap_mono (correct_answer q) r1 r2 Hsub). lia.
Qed.

(** [C10] Short-answer grading is monotone in the word set of the
    submission: for every correct answer, empty or not, a submission
    whose lowercased word set contains the word set of a submission that
    grades correct grades correct as well. *)
Theorem short_answer_monotone (c r1 r2 : str) :
  terms r1 ⊆ terms r2 →
  short_answer_is_correct c r1 = true →
  short_answer_is_correct c r2 = true.
Proof.
  rewrite !short_answer_is_correct_iff. intros Hsub H1.
  pose proof (overlap_mono c r1 r2 Hsub). lia.
Qed.

(** A submission that grades correct, with words added. *)
Lemma short_answer_monotone_witness :
  short_answer_is_correct (py "the cell is small")
    (py "a cell is what I call small") = true.
Proof.
  apply (short_answer_monotone (py "the cell is small") (py "cell small")).
  - apply (bool_decide_unpack _). vm_compute. exact I.
  - vm_compute. reflexivity.
Defined.

End Grading.

(** ** Invite links *)

Section Invites.
Import Database AuthManager Examples.

Lemma select_unused_invite_Some (tok : str) (db : DB) (i : Invite) :
  select_unused_invite tok db = Some i →
  In i (invite_links db) ∧ token i = tok ∧ used i = false.
Proof.
  unfold select_unused_invite. intros H.
  apply find_some in H as [Hin Hp].
  apply andb_prop in Hp as [Ht Hu].
  apply bool_decide_eq_true in Ht.
  apply negb_true_iff in Hu. done.
Qed.

Lemma select_unused_invite_None (tok : str) (db : DB) :
  select_unused_invite tok db = None
  ↔ ∀ i, In i (invite_links db) → token i = tok → used i = true.
Proof.
  unfold select_unused_invite. split.
  - intros H i Hin Ht.
    pose proof (find_none _ _ H i Hin) as Hp. simpl in Hp.
    rewrite bool_decide_eq_true_2 in Hp by done.
    simpl in Hp. by apply negb_false_iff in Hp.
  - intros H. destruct (List.find _ _) as [i|] eqn:Hf; [|done].
    apply find_some in Hf as [Hin Hp].
    apply andb_prop in Hp as [Ht Hu].
    apply bool_decide_eq_true in Ht.
    rewrite (H i Hin Ht) in Hu. done.
Qed.

(** Two rows with one token are one row. *)
Lemma token_determines_row (l : list Invite) (i j : Invite) :
  NoDup (map token l) → In i l → In j l → token i = token j → i = j.
Proof.
  induction l as [|x l IH]; simpl; [done|].
  intros Hnd Hi Hj Heq. apply NoDup_cons in Hnd as [Hx Hnd].
  destruct Hi as [->|Hi], Hj as [->|Hj]; [done| | |by apply IH].
  - exfalso. apply Hx. rewrite Heq. apply list_elem_of_In, in_map, Hj.
  - exfalso. apply Hx. rewrite <- Heq. apply list_elem_of_In, in_map, Hi.
Qed.

(** Once the row found for a token is marked, no unused row with this
    token is left. *)
Lemma mark_used_select (tok : str) (uid : Z) (db : DB) (i : Invite) :
  tokens_unique db →
  select_unused_invite tok db = Some i →
  select_unused_invite tok (mark_used (invite_id i) uid db) = None.
Proof.
  intros Hu Hsel. apply select_unused_invite_Some in Hsel as (Hi & Ht & _).
  apply select_unused_invite_None. intros j Hj Htj.
  simpl in Hj. apply in_map_iff in Hj as (k & Hk & Hkin).
  case_bool_decide as Hid; subst j; [done|].
  exfalso. apply Hid. f_equal.
  apply (token_determines_row (invite_links db)); [done..|congruence].
Qed.

(** The check of [validate_invite_token] and the one of
    [use_invite_link] agree at one instant. *)
Lemma validate_matches_use (tok : str) (uid now : Z) (db : DB) :
  v_success (validate_invite_token tok now db)
  = fst (use_invite_link tok uid now db).
Proof.
  unfold validate_invite_token, use_invite_link.
  destruct (select_unused_invite tok db) as [i|]; [|done].
  destruct (expires_at i) as [t|]; [|done].
  by destruct (t <? now)%Z.
Qed.

(** [C3] [use_invite_link] fails on a token whose rows are all marked
    used and leaves the database as it is; after a call that redeemed a
    token, every later call on this token fails; and a call on a token
    that expired before the current instant fails and leaves the
    database, and so the token, as it is. *)
Theorem use_invite_link_lifecycle
    (tok : str) (uid uid' now now' : Z) (db : DB) :
  ((∀ i, In i (invite_links db) → token i = tok → used i = true) →
   use_invite_link tok uid now db = (false, db))
  ∧ (∀ db', tokens_unique db →
       use_invite_link tok uid now db = (true, db') →
       use_invite_link tok uid' now' db' = (false, db'))
  ∧ (∀ i t, select_unused_invite tok db = Some i →
       expires_at i = Some t → (t < now)%Z →
       use_invite_link tok uid now db = (false, db)).
Proof.
  split; [|split].
  - intros Hused. apply select_unused_invite_None in Hused.
    unfold use_invite_link. by rewrite Hused.
  - intros db' Hu. unfold use_invite_link at 1.
    destruct (select_unused_invite tok db) as [i|] eqn:Hsel; [|done].
    destruct (expires_at i) as [t|]; [|done].
    destruct (t <? now)%Z; [done|].
    intros [= <-]. unfold use_invite_link.
    by rewrite (mark_used_select _ _ _ _ Hu Hsel).
  - intros i t Hsel Hexp Hlt. unfold use_invite_link.
    rewrite Hsel, Hexp. apply Z.ltb_lt in Hlt. by rewrite Hlt.
Qed.

(** The invite of [sample_db]: the token is redeemed at instant 50 and
    refused at instant 60; unredeemed, it is refused at instant 101, past
    its expiry at 100. *)
Lemma use_invite_link_lifecycle_witness :
  use_invite_link (py "tok") 3 60
    (snd (use_invite_link (py "tok") 2 50 sample_db))
  = (false, snd (use_invite_link (py "tok") 2 50 sample_db))
  ∧ use_invite_link (py "tok") 2 101 sample_db = (false, sample_db).
Proof.
  split.
  - apply (use_invite_link_lifecycle (py "tok") 2 3 50 60 sample_db).
    + unfold tokens_unique. simpl.
      apply NoDup_cons. split; [apply not_elem_of_nil|apply NoDup_nil_2].
    + reflexivity.
  - apply (use_invite_link_lifecycle (py "tok") 2 2 101 101 sample_db)
      with (i := sample_invite) (t := 100%Z);
      [reflexivity | reflexivity | lia].
Defined.

End Invites.

(** ** Registration *)

Section Registration.
Import Database AuthManager Examples.



End Registration.

(** ** Extraction failures *)

Section Extraction.
Import PyStr PyExc PDFHandler.

Variable Image : Type.
Variable mode : Image → str.
Variable Image_open : str → outcome Image.
Variable convert : Image → str → outcome Image.
Variable image_to_string : Image → outcome str.
Variable docx_Document : str → outcome DOCXHandler.Document.
Variables File Page : Type.
Variable open_rb : str → outcome File.
Variable PdfReader : File → outcome (Reader Page).
Variable page_extract_text : Page → outcome str.
Variable NamedTemporaryFile : outcome str.
Variable run_pdftotext : str → str → outcome (Z * str).
Variable read_text : str → outcome str.
Variable unlink : str → outcome unit.

Lemma try_except_raised (body : outcome str) (prefix : str) :
  did_raise body = true →
  ∃ e, try_except body (λ e, prefix ++ e) = prefix ++ e.
Proof. destruct body as [t|e]; [done|]. intros _. by exists e. Qed.

(** [process_pdf] hands on what PyPDF2 returns when [pdftotext] has
    failed. *)
Lemma process_pdf_fallback (path : str) :
  pdftotext_failed NamedTemporaryFile run_pdftotext read_text unlink path
  = true →
  process_pdf File Page open_rb PdfReader page_extract_text
    NamedTemporaryFile run_pdftotext read_text unlink path
  = (path,
     extract_text_with_pypdf2 File Page open_rb PdfReader page_extract_text
       path).
Proof.
  unfold process_pdf, pdftotext_failed, extract_text_with_pdftotext,
    pdftotext_exit_nonzero, pdftotext_body.
  destruct NamedTemporaryFile as [tmp|e]; simpl; [|done].
  destruct (run_pdftotext path tmp) as [[rc err]|e]; simpl; [|done].
  case_bool_decide; simpl; [done|].
  destruct (read_text tmp) as [text|e]; simpl; [|done].
  destruct (unlink tmp) as [[]|e]; simpl; [discriminate|done].
Qed.

(** [C9], as amended. When the guarded block of an extraction method
    raises an exception, and when [pdftotext] leaves with a non-zero
    status, the method returns a text that begins with "Error". An
    encrypted PDF is the exception: [extract_text_with_pypdf2] reports it
    with a fixed notice that does not begin with "Error". *)
Theorem extraction_failure_text (path : str) :
  (did_raise
     (ImageHandler.extract_text_body Image mode Image_open convert
        image_to_string path) = true →
   startswith (py "Error")
     (ImageHandler.extract_text Image mode Image_open convert
        image_to_string path) = true)
  ∧ (did_raise (DOCXHandler.extract_text_body docx_Document path) = true →
     startswith (py "Error") (DOCXHandler.extract_text docx_Document path)
     = true)
  ∧ (did_raise (pypdf2_body File Page open_rb PdfReader page_extract_text path)
     = true →
     startswith (py "Error")
       (extract_text_with_pypdf2 File Page open_rb PdfReader
          page_extract_text path) = true)
  ∧ (pdftotext_failed NamedTemporaryFile run_pdftotext read_text unlink path
     = true →
     startswith (py "Error")
       (extract_text_with_pdftotext NamedTemporaryFile run_pdftotext
          read_text unlink path) = true)
  ∧ (pdf_is_encrypted File Page open_rb PdfReader path = true →
     extract_text_with_pypdf2 File Page open_rb PdfReader page_extract_text
       path = encrypted_notice
     ∧ startswith (py "Error") encrypted_notice = false).
Proof.
  split_and!.
  - unfold ImageHandler.extract_text.
    intros [e ->]%(try_except_raised _ (py "Error extracting text: ")).
    reflexivity.
  - unfold DOCXHandler.extract_text.
    intros [e ->]%(try_except_raised _ (py "Error extracting text: ")).
    reflexivity.
  - unfold extract_text_with_pypdf2.
    intros [e ->]%(try_except_raised _
                     (py "Error extracting text with PyPDF2: ")).
    reflexivity.
  - unfold pdftotext_failed, extract_text_with_pdftotext,
      pdftotext_exit_nonzero, pdftotext_body.
    destruct NamedTemporaryFile as [tmp|e]; simpl; [|done].
    destruct (run_pdftotext path tmp) as [[rc err]|e]; simpl; [|done].
    case_bool_decide; simpl; [done|].
    destruct (read_text tmp) as [text|e]; simpl; [|done].
    destruct (unlink tmp) as [[]|e]; simpl; [discriminate|done].
  - unfold pdf_is_encrypted, extract_text_with_pypdf2, pypdf2_body.
    destruct (open_rb path) as [f|e]; simpl; [|done].
    destruct (PdfReader f) as [rd|e]; simpl; [|done].
    by intros ->.
Qed.

End Extraction.

Section ExtractionExamples.
Import PyStr PyExc PDFHandler Examples.

(** An image that cannot be opened and an encrypted PDF. *)
Lemma extraction_failure_text_witness :
  startswith (py "Error")
    (ImageHandler.extract_text unit (λ _, py "RGB")
       (λ _, raised (py "cannot identify image file")) (λ i _, returned i)
       (λ _, returned []) (py "scan.png")) = true
  ∧ extract_text_with_pypdf2 unit unit (λ _, returned tt)
      (λ _, returned locked_reader) (λ _, returned []) (py "scan.png")
    = encrypted_notice.
Proof.
  pose proof (extraction_failure_text unit (λ _, py "RGB")
    (λ _, raised (py "cannot identify image file")) (λ i _, returned i)
    (λ _, returned []) (λ _, raised (py "Package not found"))
    unit unit (λ _, returned tt) (λ _, returned locked_reader)
    (λ _, returned []) (raised (py "No space left on device"))
    (λ _ _, returned (0%Z, [])) (λ _, returned []) (λ _, returned tt)
    (py "scan.png")) as (Himg & _ & _ & _ & Henc).
  split.
  - apply Himg. reflexivity.
  - apply Henc. reflexivity.
Defined.

(** [C9] as stated fails: the extraction from an encrypted PDF fails,
    and the text returned for it, also by [process_pdf] when [pdftotext]
    is not installed, does not begin with "Error". *)
Lemma encrypted_pdf_reported_without_error_prefix :
  pypdf2_failed unit unit (λ _, returned tt) (λ _, returned locked_reader)
    (λ _, returned []) (py "locked.pdf") = true
  ∧ extract_text_with_pypdf2 unit unit (λ _, returned tt)
      (λ _, returned locked_reader) (λ _, returned []) (py "locked.pdf")
    = py "This PDF is encrypted and requires a password for text extraction."
  ∧ startswith (py "Error")
      (extract_text_with_pypdf2 unit unit (λ _, returned tt)
         (λ _, returned locked_reader) (λ _, returned []) (py "locked.pdf"))
    = false
  ∧ process_pdf unit unit (λ _, returned tt) (λ _, returned locked_reader)
      (λ _, returned []) (returned (py "/tmp/out.txt"))
      (λ _ _, raised (py "No such file or directory: 'pdftotext'"))
      (λ _, returned []) (λ _, returned tt) (py "locked.pdf")
    = (py "locked.pdf", encrypted_notice).
Proof. split_and!; reflexivity. Qed.

End ExtractionExamples.

(** * Further properties of the code *)

(** ** The questions of a generated quiz *)

Section QuizInvariant.
Import PyStr PyRandom QuizGenerator QuizInvariants Examples.

Lemma multiple_choice_for_well_formed
    (text target content content' : str) (r : Rng) :
  4 < length target →
  well_formed content' (fst (multiple_choice_for text target content r)).
Proof.
  intros Hlen.
  destruct (multiple_choice_for_fields text target content r)
    as (_ & Hty & Hc & Ho).
  unfold well_formed. rewrite Hty, Hc. split; [done|].
  eexists. split; [exact Ho|].
  destruct (_generate_distractors target content 3 r) as [d r1] eqn:Hd.
  pose proof (distractors_length target content r) as Hl.
  rewrite Hd in Hl. cbn [fst] in Hl.
  split; [rewrite shuffle_length; simpl; lia|].
  apply list_elem_of_In. rewrite (shuffle_Permutation (target :: d) r1).
  apply list_elem_of_here.
Qed.

Lemma fact_question_well_formed
    (fact content content' : str) (r r' : Rng) (q : Question) :
  _generate_multiple_choice_question fact content r = (Some q, r') →
  well_formed content' q.
Proof.
  unfold _generate_multiple_choice_question.
  destruct (List.filter _ (split fact)) as [|t ts] eqn:Hk; [done|].
  unfold bind at 1 2. unfold ret.
  pose proof (choice_In t ts r) as Hin.
  destruct (choice t ts r) as [target r1]. cbn [fst] in Hin.
  rewrite <- Hk in Hin. apply filter_In in Hin as [_ Hp].
  apply andb_prop in Hp as [Hlen _]. apply Nat.ltb_lt in Hlen.
  pose proof (multiple_choice_for_well_formed
                (replace fact target blank) target content content' r1 Hlen)
    as Hwf.
  destruct (multiple_choice_for _ target content r1) as [q' r2].
  by intros [= <- _].
Qed.

Lemma generic_multiple_choice_well_formed
    (content content' : str) (r r' : Rng) (q : Question) :
  _generate_generic_multiple_choice_question content r = (Some q, r') →
  well_formed content' q.
Proof.
  unfold _generate_generic_multiple_choice_question.
  destruct (sentences_of content) as [|s ss]; [done|].
  unfold bind at 1. destruct (choice s ss r) as [sentence r1].
  destruct (List.filter _ (split sentence)) as [|t ts] eqn:Hk; [done|].
  unfold bind at 1 2. unfold ret.
  pose proof (choice_In t ts r1) as Hin.
  destruct (choice t ts r1) as [target r2]. cbn [fst] in Hin.
  rewrite <- Hk in Hin. apply filter_In in Hin as [_ Hp].
  apply andb_prop in Hp as [Hlen _]. apply Nat.ltb_lt in Hlen.
  match goal with
  | |- context [multiple_choice_for ?text target content r2] =>
      pose proof (multiple_choice_for_well_formed
                    text target content content' r2 Hlen) as Hwf;
      destruct (multiple_choice_for text target content r2) as [q' r3]
  end.
  by intros [= <- _].
Qed.

Lemma generic_short_answer_well_formed
    (content : str) (r r' : Rng) (q : Question) :
  _generate_generic_short_answer_question content r = (Some q, r') →
  well_formed content q.
Proof.
  unfold _generate_generic_short_answer_question.
  destruct (sentences_of content) as [|s ss] eqn:Hs; [done|].
  unfold bind at 1. pose proof (choice_In s ss r) as Hin.
  destruct (choice s ss r) as [sentence r1]. cbn [fst] in Hin.
  unfold bind, ret. destruct (choice _ _ r1) as [text r2].
  intros [= <- _]. unfold well_formed. cbn [question_type options correct_answer].
  rewrite Hs. by split.
Qed.

Lemma remove_first_In (x y : str) (l : list str) :
  In y (remove_first x l) → In y l.
Proof.
  induction l as [|z l IH]; simpl; [done|].
  case_bool_decide as Hxz; simpl; [tauto|]. intros [->|Hy]; [tauto|]. right. auto.
Qed.

Lemma append_if_Forall (P : Question → Prop) (qs : list Question)
    (q : option Question) :
  Forall P qs → (∀ q', q = Some q' → P q') → Forall P (append_if qs q).
Proof.
  intros Hqs Hq. destruct q as [q'|]; simpl; [|done].
  apply Forall_app. split; [done|]. apply Forall_singleton. by apply Hq.
Qed.

Lemma multiple_choice_loop_invariant
    (n : nat) (content content' : str) (P : str → Prop)
    (kf : list str) (qs : list Question) (r : Rng) :
  Forall (well_formed content') qs → (∀ f, In f kf → P f) →
  let '((kf', qs'), _) := multiple_choice_loop n content kf qs r in
  Forall (well_formed content') qs' ∧ (∀ f, In f kf' → P f).
Proof.
  revert kf qs r. induction n as [|n IH]; intros kf qs r Hqs Hkf; [done|].
  cbn [multiple_choice_loop]. destruct kf as [|f fs]; [by apply IH|].
  unfold bind at 1. destruct (choice f fs r) as [fact r1].
  unfold bind at 1.
  destruct (_generate_multiple_choice_question fact content r1)
    as [q r2] eqn:Hq.
  apply IH.
  - apply append_if_Forall; [done|]. intros q' ->.
    by eapply fact_question_well_formed.
  - intros g Hg%remove_first_In. by apply Hkf.
Qed.

Lemma short_answer_loop_invariant
    (n : nat) (content' : str) (kf : list str) (qs : list Question) (r : Rng) :
  Forall (well_formed content') qs →
  (∀ f, In f kf → In f (sentences_of content')) →
  Forall (well_formed content') (snd (fst (short_answer_loop n kf qs r))).
Proof.
  revert kf qs r. induction n as [|n IH]; intros kf qs r Hqs Hkf; [done|].
  cbn [short_answer_loop]. destruct kf as [|f fs]; [by apply IH|].
  unfold bind at 1. pose proof (choice_In f fs r) as Hin.
  destruct (choice f fs r) as [fact r1]. cbn [fst] in Hin.
  apply IH.
  - apply Forall_app. split; [done|]. apply Forall_singleton.
    split; [done|]. by apply Hkf.
  - intros g Hg%remove_first_In. by apply Hkf.
Qed.

Lemma generic_loop_invariant
    (fuel : nat) (content : str) (n : nat) (qs qs' : list Question)
    (r r' : Rng) :
  Forall (well_formed content) qs →
  generic_loop fuel content n qs r = (Some qs', r') →
  Forall (well_formed content) qs'.
Proof.
  revert qs r. induction fuel as [|fuel IH]; intros qs r Hqs;
    cbn [generic_loop].
  - destruct (length qs <? n); [done|]. by intros [= <- _].
  - destruct (length qs <? n); [|by intros [= <- _]].
    unfold bind at 1.
    destruct (Nat.even (length qs)).
    + destruct (_generate_generic_multiple_choice_question content r)
        as [q r1] eqn:Hq.
      apply IH. apply append_if_Forall; [done|]. intros q' ->.
      by eapply generic_multiple_choice_well_formed.
    + destruct (_generate_generic_short_answer_question content r)
        as [q r1] eqn:Hq.
      apply IH. apply append_if_Forall; [done|]. intros q' ->.
      by eapply generic_short_answer_well_formed.
Qed.

Lemma generate_quiz_well_formed
    (fuel : nat) (content title : str) (n : nat) (r r' : Rng) (quiz : Quiz) :
  generate_quiz fuel content title n r = (Some quiz, r') →
  Forall (well_formed (_preprocess_content content)) (questions quiz).
Proof.
  unfold generate_quiz. unfold bind at 1.
  pose proof (multiple_choice_loop_invariant (num_multiple_choice n)
    (_preprocess_content content) (_preprocess_content content)
    (λ f, In f (sentences_of (_preprocess_content content)))
    (_extract_key_facts (_preprocess_content content)) [] r
    (Forall_nil_2 _) (key_facts_are_sentences _)) as Hmc.
  destruct (multiple_choice_loop _ _ _ _ r) as [[kf qs] r1].
  destruct Hmc as [Hqs Hkf].
  unfold bind at 1.
  pose proof (short_answer_loop_invariant (n - num_multiple_choice n)
                _ kf qs r1 Hqs Hkf) as Hsa.
  destruct (short_answer_loop _ kf qs r1) as [[kf' qs'] r2].
  cbn [fst snd] in Hsa. unfold bind at 1.
  destruct (generic_loop fuel _ n qs' r2) as [[qs''|] r3] eqn:Hloop; [|done].
  apply generic_loop_invariant in Hloop; [|done].
  unfold bind, ret.
  pose proof (shuffle_Permutation qs'' r3) as Hperm.
  destruct (shuffle qs'' r3) as [sh r4]. cbn [fst] in Hperm.
  intros [= <- _]. cbn [questions].
  apply Forall_take. by rewrite Hperm.
Qed.

Lemma generate_quiz_header
    (fuel : nat) (content t : str) (n : nat) (r r' : Rng) (quiz : Quiz) :
  generate_quiz fuel content t n r = (Some quiz, r') →
  title quiz = t
  ∧ source_material quiz
    = (if 500 <? length content then take 500 content ++ py "..."
       else content).
Proof.
  unfold generate_quiz. unfold bind at 1.
  destruct (multiple_choice_loop _ _ _ _ r) as [[kf qs] r1].
  unfold bind at 1.
  destruct (short_answer_loop _ kf qs r1) as [[kf' qs'] r2].
  unfold bind at 1.
  destruct (generic_loop fuel _ n qs' r2) as [[qs''|] r3]; [|done].
  unfold bind, ret. destruct (shuffle qs'' r3) as [sh r4].
  by intros [= <- _].
Qed.

(** [X1] A quiz that [generate_quiz] returns has the title it was
    given, the first 500 characters of the content as its source
    material, the number of questions asked for, and questions of the
    two kinds only as the data model has them: a multiple-choice
    question offers four options with the answer, a term of more than
    four characters, among them; a short-answer question has no options
    and a sentence of the preprocessed content for its answer. *)
Theorem generated_quiz_is_well_formed
    (fuel : nat) (content t : str) (n : nat) (r r' : Rng) (quiz : Quiz) :
  generate_quiz fuel content t n r = (Some quiz, r') →
  title quiz = t
  ∧ source_material quiz
    = (if 500 <? length content then take 500 content ++ py "..."
       else content)
  ∧ length (questions quiz) = n
  ∧ Forall (well_formed (_preprocess_content content)) (questions quiz).
Proof.
  intros Hrun.
  destruct (generate_quiz_header _ _ _ _ _ _ _ Hrun) as [Ht Hs].
  split_and!; [done|done| |].
  - by eapply generate_quiz_quota.
  - by eapply generate_quiz_well_formed.
Qed.

(** The quiz of the specification's example. *)
Lemma generated_quiz_is_well_formed_witness :
  fst (generate_quiz 2 cell_content (py "Cells") 2 (tape [])) = Some cells_quiz
  ∧ length (questions cells_quiz) = 2
  ∧ Forall (well_formed (_preprocess_content cell_content))
      (questions cells_quiz).
Proof.
  assert (fst (generate_quiz 2 cell_content (py "Cells") 2 (tape []))
          = Some cells_quiz) as Hrun by (vm_compute; reflexivity).
  split; [exact Hrun|].
  destruct (generate_quiz 2 cell_content (py "Cells") 2 (tape []))
    as [o r'] eqn:E.
  cbn [fst] in Hrun. subst o.
  destruct (generated_quiz_is_well_formed 2 cell_content (py "Cells") 2
              (tape []) r' cells_quiz E) as (_ & _ & Hlen & Hwf).
  by split.
Defined.

(** [X2] With material for the generic questions, that is, when the
    preprocessed content has a sentence of more than 20 characters and
    each such sentence has a word of more than four letters,
    [generate_quiz] returns within [num_questions] rounds of its
    [while] loop, whatever the random source, and the quiz has the size
    asked for and well-formed questions. *)
Theorem quiz_with_material_is_generated
    (fuel : nat) (content t : str) (n : nat) (r : Rng) :
  sentences_of (_preprocess_content content) ≠ [] →
  (∀ s, In s (sentences_of (_preprocess_content content)) →
        has_generic_term s = true) →
  n ≤ fuel →
  ∃ quiz r',
    generate_quiz fuel content t n r = (Some quiz, r')
    ∧ length (questions quiz) = n
    ∧ Forall (well_formed (_preprocess_content content)) (questions quiz).
Proof.
  intros Hne Hall Hfuel.
  destruct (generate_quiz_returns fuel content t n r Hne Hall Hfuel)
    as (quiz & r' & Hrun & Hlen).
  exists quiz, r'. split_and!; [done..|]. by eapply generate_quiz_well_formed.
Qed.

(** The content of the specification's example has two sentences, with
    the words "mitochondria" and "Ribosomes". *)
Lemma quiz_with_material_is_generated_witness :
  ∃ quiz r',
    generate_quiz 5 cell_content (py "Cells") 5 (tape [3; 1; 4]) = (Some quiz, r')
    ∧ length (questions quiz) = 5
    ∧ Forall (well_formed (_preprocess_content cell_content))
        (questions quiz).
Proof.
  apply (quiz_with_material_is_generated 5 cell_content (py "Cells") 5
           (tape [3; 1; 4])).
  - vm_compute. discriminate.
  - intros s Hs. vm_compute in Hs.
    destruct Hs as [<-|[<-|[]]]; vm_compute; reflexivity.
  - lia.
Defined.

End QuizInvariant.

(** ** Sentences and words *)

Section SentencesHaveWords.
Import PyStr PyRandom QuizGenerator QuizInvariants QuizComponent Examples.

Lemma lstrip_head (s t : str) (c : ascii) :
  lstrip s = c :: t → is_space c = false.
Proof.
  induction s as [|x s IH]; simpl; [done|].
  destruct (is_space x) eqn:Hx; [done|]. by intros [= <- _].
Qed.

Lemma lstrip_snoc (l : str) (c : ascii) :
  is_space c = false → lstrip (l ++ [c]) = lstrip l ++ [c].
Proof.
  intros Hc. induction l as [|x l IH]; simpl; [by rewrite Hc|].
  by destruct (is_space x).
Qed.

(** A stripped text starts with a character that is not white space. *)
Lemma strip_head (s t : str) (c : ascii) :
  strip s = c :: t → is_space c = false.
Proof.
  unfold strip, rstrip. destruct (lstrip s) as [|c0 u] eqn:Hu; [done|].
  pose proof (lstrip_head _ _ _ Hu) as Hc0.
  simpl. rewrite lstrip_snoc by done. rewrite rev_app_distr. simpl.
  by intros [= <- _].
Qed.

Lemma is_space_lower_char (c : ascii) :
  is_space (lower_char c) = is_space c.
Proof. destruct c as [[] [] [] [] [] [] [] []]; reflexivity. Qed.

Lemma split_head (c : ascii) (s : str) :
  is_space c = false → split (c :: s) ≠ [].
Proof.
  intros Hc. unfold split. simpl. rewrite Hc.
  by destruct (split_on is_space s).
Qed.

Lemma terms_nonempty (c : ascii) (s : str) :
  is_space c = false → terms (c :: s) ≠ ∅.
Proof.
  intros Hc. unfold terms.
  change (lower (c :: s)) with (lower_char c :: lower s).
  pose proof (split_head (lower_char c) (lower s)) as Hs.
  rewrite is_space_lower_char in Hs. specialize (Hs Hc).
  destruct (split _) as [|w ws]; [done|].
  simpl. intros Hempty. apply (not_elem_of_empty (C := gset str) w).
  rewrite <- Hempty. apply elem_of_union_l, elem_of_singleton. done.
Qed.

(** Every sentence of the pool has a word. *)
Lemma sentences_have_words (content s : str) :
  In s (sentences_of content) → terms s ≠ ∅.
Proof.
  intros (f & _ & -> & Hlen)%sentences_of_spec.
  destruct (strip f) as [|c t] eqn:Hf; [simpl in Hlen; lia|].
  apply terms_nonempty. by eapply strip_head.
Qed.

(** [X3] A short-answer question of a generated quiz has an expected
    answer with at least one word, so that a response that shares no
    word with it is graded as incorrect. *)
Theorem generated_short_answer_rejects_disjoint
    (fuel : nat) (content title : str) (n : nat) (r r' : Rng) (quiz : Quiz)
    (q : Question) (response : str) :
  generate_quiz fuel content title n r = (Some quiz, r') →
  In q (questions quiz) →
  question_type q = short_answer →
  terms (correct_answer q) ## terms response →
  terms (correct_answer q) ≠ ∅
  ∧ short_answer_is_correct (correct_answer q) response = false.
Proof.
  intros Hquiz Hq Hty Hdisj.
  apply generate_quiz_well_formed in Hquiz.
  rewrite Forall_forall in Hquiz.
  specialize (Hquiz q (proj2 (list_elem_of_In _ _) Hq)).
  unfold well_formed in Hquiz. rewrite Hty in Hquiz.
  destruct Hquiz as [_ Hs%sentences_have_words]. split; [done|].
  apply short_answer_is_correct_false.
  assert (terms (correct_answer q) ∩ terms response = ∅) as ->
    by by apply disjoint_intersection_L.
  rewrite size_empty.
  assert (size (terms (correct_answer q)) ≠ 0); [|lia].
  intros H0. apply size_empty_inv in H0. apply Hs. by apply leibniz_equiv.
Qed.

(** The second question of [cells_quiz] and a response about plants. *)
Lemma generated_short_answer_rejects_disjoint_witness :
  short_answer_is_correct
    (py "Ribosomes are are responsible for protein synthesis")
    (py "plants make sugar") = false.
Proof.
  destruct (generate_quiz 2 cell_content (py "Cells") 2 (tape []))
    as [o r'] eqn:E.
  assert (o = Some cells_quiz) as ->.
  { transitivity (fst (generate_quiz 2 cell_content (py "Cells") 2 (tape []))).
    - by rewrite E.
    - vm_compute. reflexivity. }
  refine (proj2 (generated_short_answer_rejects_disjoint 2 cell_content
                   (py "Cells") 2 (tape []) r' cells_quiz
                   (nth 1 (questions cells_quiz) wordless_question)
                   (py "plants make sugar") E _ _ _)).
  - right. left. reflexivity.
  - reflexivity.
  - apply (bool_decide_unpack _). vm_compute. exact I.
Defined.

End SentencesHaveWords.

(** ** The facts of a quiz are used once *)

Section FactsUsedOnce.
Import PyStr PyRandom QuizGenerator QuizInvariants.

Lemma remove_first_Permutation (x : str) (l : list str) :
  In x l → x :: remove_first x l ≡ₚ l.
Proof.
  induction l as [|y l IH]; simpl; [done|].
  case_bool_decide as Hxy; [by subst|].
  intros [->|Hin]; [done|]. rewrite <- (IH Hin) at 2. apply perm_swap.
Qed.

Lemma remove_first_length (x : str) (l : list str) :
  In x l → length (remove_first x l) = length l - 1.
Proof.
  intros Hin. pose proof (Permutation_length (remove_first_Permutation x l Hin)).
  simpl in *. lia.
Qed.

Lemma short_answer_loop_step
    (n : nat) (f : str) (fs : list str) (qs : list Question) (r : Rng) :
  short_answer_loop (S n) (f :: fs) qs r
  = let (fact, r1) := choice f fs r in
    short_answer_loop n (remove_first fact (f :: fs))
      (qs ++ [_generate_short_answer_question fact]) r1.
Proof. cbn [short_answer_loop]. unfold bind. by destruct (choice f fs r). Qed.

Lemma multiple_choice_loop_step
    (n : nat) (content f : str) (fs : list str) (qs : list Question)
    (r : Rng) :
  multiple_choice_loop (S n) content (f :: fs) qs r
  = let (fact, r1) := choice f fs r in
    let (q, r2) := _generate_multiple_choice_question fact content r1 in
    multiple_choice_loop n content (remove_first fact (f :: fs))
      (append_if qs q) r2.
Proof.
  cbn [multiple_choice_loop]. unfold bind at 1.
  destruct (choice f fs r) as [fact r1]. unfold bind at 1.
  by destruct (_generate_multiple_choice_question fact content r1).
Qed.

Lemma short_answer_loop_consumes
    (n : nat) (kf : list str) (qs : list Question) (r : Rng) :
  ∃ used,
    snd (fst (short_answer_loop n kf qs r))
    = qs ++ map _generate_short_answer_question used
    ∧ used ++ fst (fst (short_answer_loop n kf qs r)) ≡ₚ kf
    ∧ length used = Nat.min n (length kf).
Proof.
  revert kf qs r. induction n as [|n IH]; intros kf qs r.
  - exists []. simpl. by rewrite app_nil_r.
  - destruct kf as [|f fs].
    + destruct (IH [] qs r) as (used & Hq & Hp & Hl).
      exists used. split_and!; [done..|]. simpl in *. lia.
    + rewrite short_answer_loop_step. pose proof (choice_In f fs r) as Hin.
      destruct (choice f fs r) as [fact r1]. cbn [fst] in Hin.
      destruct (IH (remove_first fact (f :: fs))
                  (qs ++ [_generate_short_answer_question fact]) r1)
        as (used & Hq & Hp & Hl).
      exists (fact :: used). split_and!.
      * rewrite Hq, <- app_assoc. done.
      * simpl. rewrite Hp. by apply remove_first_Permutation.
      * rewrite remove_first_length in Hl by done. simpl in *. lia.
Qed.

Lemma multiple_choice_loop_consumes
    (n : nat) (content : str) (kf : list str) (qs : list Question) (r : Rng) :
  ∃ used asked new,
    snd (fst (multiple_choice_loop n content kf qs r)) = qs ++ new
    ∧ used ++ fst (fst (multiple_choice_loop n content kf qs r)) ≡ₚ kf
    ∧ length used = Nat.min n (length kf)
    ∧ asked `sublist_of` used
    ∧ Forall2 built_from new asked.
Proof.
  revert kf qs r. induction n as [|n IH]; intros kf qs r.
  - exists [], [], []. simpl. rewrite app_nil_r. split_and!; try done.
  - destruct kf as [|f fs].
    + destruct (IH [] qs r) as (used & asked & new & Hq & Hp & Hl & Hs & Hb).
      exists used, asked, new. split_and!; [done..| |done|done].
      simpl in *. lia.
    + rewrite multiple_choice_loop_step. pose proof (choice_In f fs r) as Hin.
      destruct (choice f fs r) as [fact r1]. cbn [fst] in Hin.
      destruct (_generate_multiple_choice_question fact content r1)
        as [q r2] eqn:Hgen.
      destruct (IH (remove_first fact (f :: fs)) (append_if qs q) r2)
        as (used & asked & new & Hq & Hp & Hl & Hs & Hb).
      destruct q as [q|]; cbn [append_if] in *.
      * exists (fact :: used), (fact :: asked), (q :: new). split_and!.
        -- rewrite Hq, <- app_assoc. done.
        -- simpl. rewrite Hp. by apply remove_first_Permutation.
        -- rewrite remove_first_length in Hl by done. simpl in *. lia.
        -- by apply sublist_skip.
        -- constructor; [|done].
           destruct (generated_question_fields _ _ _ _ _ Hgen)
             as (_ & Hw & Ht & _).
           split_and!; [|done..].
           pose proof (fact_question_well_formed fact content [] r1 r2 q Hgen)
             as Hwf.
           unfold well_formed in Hwf.
           destruct (question_type q); [done|].
           destruct Hwf as [Ho _].
           destruct (generated_question_fields _ _ _ _ _ Hgen)
             as (_ & _ & _ & r3 & Ho'). congruence.
      * exists (fact :: used), asked, new. split_and!; [done| | | |done].
        -- simpl. rewrite Hp. by apply remove_first_Permutation.
        -- rewrite remove_first_length in Hl by done. simpl in *. lia.
        -- by apply sublist_cons.
Qed.

(** [X4] Each round of the two loops over the facts takes one fact out
    of the list while there is one: after [n] rounds the facts left
    with the facts used are the facts there were, [min n (len
    key_facts)] of them used. The short-answer loop adds one question
    for each fact used; the multiple-choice loop adds a question for
    some of the facts used, in their order, each built from its fact by
    blanking a word of it. *)
Theorem facts_are_used_once
    (n : nat) (content : str) (kf : list str) (qs : list Question) (r : Rng) :
  (∃ used asked new,
     snd (fst (multiple_choice_loop n content kf qs r)) = qs ++ new
     ∧ used ++ fst (fst (multiple_choice_loop n content kf qs r)) ≡ₚ kf
     ∧ length used = Nat.min n (length kf)
     ∧ asked `sublist_of` used
     ∧ Forall2 built_from new asked)
  ∧ (∃ used,
       snd (fst (short_answer_loop n kf qs r))
       = qs ++ map _generate_short_answer_question used
       ∧ used ++ fst (fst (short_answer_loop n kf qs r)) ≡ₚ kf
       ∧ length used = Nat.min n (length kf)).
Proof.
  split; [apply multiple_choice_loop_consumes|apply short_answer_loop_consumes].
Qed.

End FactsUsedOnce.

(** ** The shape of the fact list *)

Section KeyFacts.
Import PyStr QuizGenerator QuizInvariants.

Lemma insert_by_len_Permutation (x : str) (l : list str) :
  insert_by_len x l ≡ₚ x :: l.
Proof.
  induction l as [|y l IH]; simpl; [done|].
  destruct (length x <? length y); [|done].
  rewrite IH. apply perm_swap.
Qed.

Lemma sorted_by_len_desc_Permutation (l : list str) :
  sorted_by_len_desc l ≡ₚ l.
Proof.
  induction l as [|x l IH]; simpl; [done|].
  by rewrite insert_by_len_Permutation, IH.
Qed.

Lemma insert_by_len_sorted (x : str) (l : list str) :
  StronglySorted longer_first l →
  StronglySorted longer_first (insert_by_len x l).
Proof.
  induction 1 as [|y l Hl IH Hy]; simpl.
  - repeat constructor.
  - destruct (Nat.ltb_spec (length x) (length y)).
    + constructor; [done|].
      rewrite insert_by_len_Permutation. constructor; [|done].
      unfold longer_first. lia.
    + constructor; [by constructor|]. constructor; [done|].
      eapply Forall_impl; [exact Hy|]. unfold longer_first. simpl.
      intros z Hz. lia.
Qed.

Lemma sorted_by_len_desc_sorted (l : list str) :
  StronglySorted longer_first (sorted_by_len_desc l).
Proof.
  induction l as [|x l IH]; simpl; [constructor|].
  by apply insert_by_len_sorted.
Qed.

Lemma extract_key_facts_unfold (content : str) :
  _extract_key_facts content
  = if length (strong_facts content) <? 10
    then strong_facts content
         ++ take (10 - length (strong_facts content))
              (sorted_by_len_desc (regular_sentences content))
    else strong_facts content.
Proof. reflexivity. Qed.

(** [X5] [_extract_key_facts] returns the strong candidates in the
    order of the text, followed, when they are fewer than 10, by the
    longest of the other sentences, longest first, as many as fill the
    list up to 10. *)
Theorem key_facts_shape (content : str) :
  ∃ back rest,
    _extract_key_facts content = strong_facts content ++ back
    ∧ back ++ rest ≡ₚ regular_sentences content
    ∧ length back
      = Nat.min (10 - length (strong_facts content))
          (length (regular_sentences content))
    ∧ StronglySorted longer_first back
    ∧ ∀ x y, In x back → In y rest → length y ≤ length x.
Proof.
  rewrite extract_key_facts_unfold.
  pose proof (sorted_by_len_desc_sorted (regular_sentences content)) as Hs.
  pose proof (sorted_by_len_desc_Permutation (regular_sentences content))
    as Hp.
  set (k := 10 - length (strong_facts content)).
  set (sorted := sorted_by_len_desc (regular_sentences content)) in *.
  rewrite <- (take_drop k sorted) in Hs, Hp.
  destruct (Nat.ltb_spec (length (strong_facts content)) 10) as [Hlt|Hge].
  - exists (take k sorted), (drop k sorted). split_and!; [done..| | |].
    + rewrite length_take. rewrite <- (Permutation_length Hp).
      rewrite length_app, length_take, length_drop. lia.
    + by apply StronglySorted_app_1_l in Hs.
    + intros x y Hx%list_elem_of_In Hy%list_elem_of_In.
      by apply (StronglySorted_app_1_elem_of _ _ _ x y) in Hs.
  - exists [], sorted. rewrite app_nil_r. split_and!; [done| | |constructor|].
    + simpl. rewrite <- Hp. by rewrite take_drop.
    + simpl. subst k. lia.
    + by intros x y [].
Qed.

End KeyFacts.

(** ** The preprocessed content *)

Section Preprocess.
Import PyStr QuizGenerator QuizInvariants.

Lemma lstrip_Forall (P : ascii → Prop) (s : str) :
  Forall P s → Forall P (lstrip s).
Proof.
  induction 1 as [|c s Hc Hs IH]; simpl; [constructor|].
  destruct (is_space c); [done|by constructor].
Qed.

Lemma strip_Forall (P : ascii → Prop) (s : str) :
  Forall P s → Forall P (strip s).
Proof.
  intros H. unfold strip, rstrip.
  apply Forall_rev, lstrip_Forall, Forall_rev, lstrip_Forall, H.
Qed.

Lemma lstrip_idemp (s : str) : lstrip (lstrip s) = lstrip s.
Proof.
  induction s as [|c s IH]; simpl; [done|].
  destruct (is_space c) eqn:Hc; [done|]. simpl. by rewrite Hc.
Qed.

Lemma lstrip_id (s : str) :
  (∀ c t, s = c :: t → is_space c = false) → lstrip s = s.
Proof.
  destruct s as [|c s]; [done|]. intros H. simpl.
  by rewrite (H c s eq_refl).
Qed.

(** Stripping a stripped text changes nothing. *)
Lemma strip_idemp (s : str) : strip (strip s) = strip s.
Proof.
  assert (lstrip (strip s) = strip s) as Hl.
  { apply lstrip_id. intros c t. apply strip_head. }
  unfold strip at 1. rewrite Hl. unfold strip, rstrip.
  by rewrite rev_involutive, lstrip_idemp.
Qed.

Lemma collapse_spaces_chars (in_run : bool) (s : str) :
  Forall (λ c, is_space c = false ∨ c = " "%char) (collapse_spaces in_run s).
Proof.
  revert in_run. induction s as [|c s IH]; intros in_run; simpl;
    [constructor|].
  destruct (is_space c) eqn:Hc.
  - destruct in_run; [apply IH|]. constructor; [by right|apply IH].
  - constructor; [by left|apply IH].
Qed.

Lemma filter_Forall_both {A} (p : A → bool) (P : A → Prop) (l : list A) :
  Forall P l → Forall (λ x, p x = true ∧ P x) (List.filter p l).
Proof.
  induction 1 as [|x l Hx Hl IH]; simpl; [constructor|].
  destruct (p x) eqn:Hp; [by constructor|done].
Qed.

(** [X6] The text that [_preprocess_content] returns consists of word
    characters, spaces and the punctuation marks [.,;:?!()-] only: the
    space is the only white space left in it, and it neither begins nor
    ends with one. *)
Theorem preprocessed_content_is_clean (content : str) :
  let out := _preprocess_content content in
  Forall (λ c, kept_char c = true) out
  ∧ strip out = out
  ∧ (∀ c, In c out → is_space c = true → c = " "%char).
Proof.
  intros out.
  assert (Forall (λ c, kept_char c = true
                       ∧ (is_space c = true → c = " "%char)) out) as H.
  { subst out. unfold _preprocess_content. apply strip_Forall.
    eapply Forall_impl;
      [apply filter_Forall_both, (collapse_spaces_chars false)|].
    intros c [Hkeep Hsp]. cbn beta in *. unfold kept_char. split.
    - destruct Hsp as [Hsp| ->]; [|done]. rewrite Hsp in Hkeep.
      rewrite orb_false_r in Hkeep.
      apply orb_prop in Hkeep as [->| ->]; [done|]. by rewrite orb_true_r.
    - intros Hs. destruct Hsp as [Hsp|Hsp]; [congruence|done]. }
  split_and!.
  - eapply Forall_impl; [exact H|]. by intros c [? _].
  - subst out. unfold _preprocess_content. apply strip_idemp.
  - intros c Hc%list_elem_of_In Hs. rewrite Forall_forall in H.
    by apply (H c Hc).
Qed.

End Preprocess.

(** ** Distractors taken from the text *)

Section Distractors.
Import PyStr PyRandom QuizGenerator QuizInvariants Examples.




Lemma distractors_count (correct content : str) (k : nat) (r : Rng) :
  k ≤ 10 → length (fst (_generate_distractors correct content k r)) = k.
Proof.
  intros Hk. unfold _generate_distractors.
  destruct (Nat.leb_spec k (length (similar_words correct content))).
  - rewrite sample_length. lia.
  - unfold bind, ret.
    pose proof (sample_length generic_distractors
                  (k - length (similar_words correct content)) r) as Hlen.
    destruct (sample generic_distractors _ r) as [extra r1].
    cbn [fst] in Hlen |- *. rewrite length_take, length_app, Hlen.
    change (length generic_distractors) with 10. lia.
Qed.




End Distractors.

(** ** Statements turned into questions *)

Section ConvertToQuestion.
Import PyStr QuizGenerator QuizInvariants.










End ConvertToQuestion.

(** ** Users *)

Section Users.
Import Database AuthManager Examples.

Lemma find_unique {A} (p : A → bool) (l : list A) (x : A) :
  In x l → p x = true → (∀ y, In y l → p y = true → y = x) →
  List.find p l = Some x.
Proof.
  induction l as [|z l IH]; simpl; [done|]. intros Hin Hp Hall.
  destruct (p z) eqn:Hz.
  - f_equal. apply Hall; [by left|done].
  - destruct Hin as [->|Hin]; [congruence|].
    apply IH; [done..|]. intros y Hy. apply Hall. by right.
Qed.

Lemma NoDup_map_inj_on {A B} (f : A → B) (l : list A) (x y : A) :
  NoDup (map f l) → In x l → In y l → f x = f y → x = y.
Proof.
  induction l as [|z l IH]; simpl; [done|].
  intros Hnd Hx Hy Heq. apply NoDup_cons in Hnd as [Hz Hnd].
  destruct Hx as [->|Hx], Hy as [->|Hy]; [done| | |by apply IH].
  - exfalso. apply Hz. rewrite Heq. apply list_elem_of_In, in_map, Hy.
  - exfalso. apply Hz. rewrite <- Heq. apply list_elem_of_In, in_map, Hx.
Qed.

Lemma get_user_by_username_In (db : DB) (u : User) :
  NoDup (map username (users db)) → In u (users db) →
  get_user_by_username (username u) db = Some u.
Proof.
  intros Hnd Hin. apply find_unique; [done|by apply bool_decide_eq_true_2|].
  intros v Hv Hp%bool_decide_eq_true.
  by apply (NoDup_map_inj_on username (users db)).
Qed.

Lemma get_user_by_id_In (db : DB) (u : User) :
  NoDup (map user_id (users db)) → In u (users db) →
  get_user_by_id (Z.of_nat (user_id u)) db = Some u.
Proof.
  intros Hnd Hin. apply find_unique; [done|by apply bool_decide_eq_true_2|].
  intros v Hv Hp%bool_decide_eq_true.
  apply (NoDup_map_inj_on user_id (users db)); [done..|lia].
Qed.

Lemma user_conflict_false (name : str) (mail : option str) (db : DB) :
  user_conflict name mail db = false ↔
  (∀ u, In u (users db) → username u ≠ name)
  ∧ (∀ m, mail = Some m → ∀ u, In u (users db) → email u ≠ Some m).
Proof.
  unfold user_conflict. rewrite orb_false_iff. split.
  - intros [Hn Hm]. split.
    + intros u Hu Heq.
      assert (existsb (λ u, bool_decide (username u = name)) (users db) = true)
        as Ht; [|congruence].
      apply existsb_exists. exists u. by rewrite bool_decide_eq_true.
    + intros m -> u Hu Heq.
      assert (existsb (λ u, bool_decide (email u = Some m)) (users db) = true)
        as Ht; [|congruence].
      apply existsb_exists. exists u. by rewrite bool_decide_eq_true.
  - intros [Hn Hm]. split.
    + apply not_true_is_false. intros (u & Hu & Hp)%existsb_exists.
      apply bool_decide_eq_true in Hp. by apply (Hn u).
    + destruct mail as [m|]; [|done].
      apply not_true_is_false. intros (u & Hu & Hp)%existsb_exists.
      apply bool_decide_eq_true in Hp. by apply (Hm m eq_refl u).
Qed.

Lemma add_user_Some (name hash : str) (mail : option str) (admin : bool)
    (db : DB) :
  user_conflict name mail db = false →
  let u := {| user_id := users_seq db + 1; username := name;
              password_hash := hash; email := mail; is_admin := admin |} in
  add_user name hash mail admin db
  = (Z.of_nat (users_seq db + 1),
     {| users := users db ++ [u]; users_seq := users_seq db + 1;
        invite_links := invite_links db;
        invite_links_seq := invite_links_seq db |}).
Proof. intros Hc. unfold add_user. by rewrite Hc. Qed.

Lemma add_user_consistent (name hash : str) (mail : option str)
    (admin : bool) (db : DB) :
  users_consistent db →
  users_consistent (snd (add_user name hash mail admin db)).
Proof.
  intros (Hn & Hi & He & Hs). unfold add_user.
  destruct (user_conflict name mail db) eqn:Hc; [done|].
  apply user_conflict_false in Hc as [Hcn Hcm].
  unfold users_consistent. cbn [snd users users_seq].
  rewrite !map_app, omap_app. cbn [map omap].
  split_and!.
  - apply NoDup_app. split_and!; [done| |apply NoDup_singleton].
    intros x Hx%list_elem_of_In%in_map_iff ->%list_elem_of_singleton.
    destruct Hx as (u & Hu & Hin). by apply (Hcn u).
  - apply NoDup_app. split_and!; [done| |apply NoDup_singleton].
    intros x Hx%list_elem_of_In%in_map_iff ->%list_elem_of_singleton.
    destruct Hx as (u & Hu & Hin). rewrite Forall_forall in Hs.
    apply list_elem_of_In, Hs in Hin. simpl in Hin, Hu. lia.
  - apply NoDup_app. split_and!; [done| |].
    + intros m Hm Hm'. destruct mail as [m'|]; simpl in Hm';
        [|by apply not_elem_of_nil in Hm'].
      apply list_elem_of_singleton in Hm' as ->.
      apply list_elem_of_omap in Hm as (u & Hu & Hmu).
      by apply (Hcm m' eq_refl u); [apply list_elem_of_In|].
    + destruct mail; simpl; [apply NoDup_singleton|apply NoDup_nil_2].
  - apply Forall_app. split.
    + eapply Forall_impl; [exact Hs|]. simpl. intros. lia.
    + apply Forall_singleton. simpl. lia.
Qed.

Lemma sample_db_users_consistent : users_consistent sample_db.
Proof.
  unfold users_consistent. simpl.
  split_and!; [apply NoDup_singleton..|apply NoDup_nil_2|].
  apply Forall_singleton. simpl. lia.
Qed.

(** [X9] On a users table that satisfies the constraints of the
    schema, [add_user] returns -1 and changes nothing when the user
    name or the e-mail address is taken; otherwise it appends one row
    with a new positive id, which [get_user_by_id] and
    [get_user_by_username] find, and every user that was there is found
    as before. The constraints hold afterwards. *)
Theorem add_user_round_trip
    (name hash : str) (mail : option str) (admin : bool) (db : DB) :
  users_consistent db →
  let id := fst (add_user name hash mail admin db) in
  let db' := snd (add_user name hash mail admin db) in
  users_consistent db'
  ∧ (user_conflict name mail db = true → id = (-1)%Z ∧ db' = db)
  ∧ (user_conflict name mail db = false →
     ∃ u, users db' = users db ++ [u]
       ∧ id = Z.of_nat (user_id u) ∧ (0 < id)%Z
       ∧ username u = name ∧ password_hash u = hash ∧ email u = mail
       ∧ is_admin u = admin
       ∧ get_user_by_id id db' = Some u
       ∧ get_user_by_username name db' = Some u
       ∧ ∀ old, In old (users db) →
           get_user_by_id (Z.of_nat (user_id old)) db' = Some old
           ∧ get_user_by_username (username old) db' = Some old).
Proof.
  intros Hc id db'.
  pose proof (add_user_consistent name hash mail admin db Hc) as Hc'.
  fold db' in Hc'. split; [done|]. split.
  - intros Hconf. subst id db'. unfold add_user. by rewrite Hconf.
  - intros Hconf. subst id db'. rewrite add_user_Some in Hc' |- * by done.
    cbn [fst snd] in *.
    set (u := {| user_id := users_seq db + 1; username := name;
                 password_hash := hash; email := mail;
                 is_admin := admin |}) in *.
    set (db1 := {| users := users db ++ [u]; users_seq := users_seq db + 1;
                   invite_links := invite_links db;
                   invite_links_seq := invite_links_seq db |}) in *.
    destruct Hc' as (Hn & Hi & _ & _).
    assert (In u (users db1)) as Hu by (apply in_app_iff; right; by left).
    assert (∀ old, In old (users db) → In old (users db1)) as Hold
      by (intros old ?; apply in_app_iff; by left).
    exists u. split_and!; try done.
    + simpl. lia.
    + exact (get_user_by_id_In db1 u Hi Hu).
    + exact (get_user_by_username_In db1 u Hn Hu).
    + intros old Hin%Hold. split.
      * by apply get_user_by_id_In.
      * by apply get_user_by_username_In.
Qed.

(** A second user for [sample_db]. *)
Lemma add_user_round_trip_witness :
  ∃ u,
    get_user_by_username (py "alice")
      (snd (add_user (py "alice") (sample_hash (py "correct horse")) None
              false sample_db))
    = Some u
    ∧ user_id u = 2 ∧ is_admin u = false.
Proof.
  destruct (add_user_round_trip (py "alice")
              (sample_hash (py "correct horse")) None false sample_db
              sample_db_users_consistent) as (_ & _ & H).
  destruct (H eq_refl)
    as (u & _ & Hid & _ & _ & _ & _ & Hadm & _ & Hget & _).
  exists u. split_and!; [done| |done].
  change (2%Z = Z.of_nat (user_id u)) in Hid. lia.
Defined.

End Users.

(** ** Invites: issue, redeem, frame *)

Section InviteFlow.
Import Database AuthManager Examples.

Lemma find_map_same {A} (p : A → bool) (f : A → A) (l : list A) :
  (∀ x, In x l → p (f x) = p x ∧ (p x = true → f x = x)) →
  List.find p (map f l) = List.find p l.
Proof.
  induction l as [|x l IH]; simpl; [done|]. intros H.
  destruct (H x (or_introl eq_refl)) as [Hp Hf]. rewrite Hp.
  destruct (p x); [by rewrite Hf|].
  apply IH. intros y Hy. apply H. by right.
Qed.



Lemma mark_used_tokens (id : nat) (uid : Z) (db : DB) :
  map token (invite_links (mark_used id uid db)) = map token (invite_links db)
  ∧ map invite_id (invite_links (mark_used id uid db))
    = map invite_id (invite_links db).
Proof.
  unfold mark_used. cbn [invite_links]. rewrite !map_map.
  split; apply map_ext; intros i; by case_bool_decide.
Qed.

Lemma use_invite_link_users (tok : str) (uid now : Z) (db : DB) :
  users (snd (use_invite_link tok uid now db)) = users db
  ∧ users_seq (snd (use_invite_link tok uid now db)) = users_seq db.
Proof.
  unfold use_invite_link.
  destruct (select_unused_invite tok db) as [i|]; [|done].
  destruct (expires_at i) as [t|]; [|done].
  by destruct (t <? now)%Z.
Qed.

Lemma use_invite_link_effect
    (tok : str) (uid now : Z) (db : DB) :
  invites_consistent db →
  let ok := fst (use_invite_link tok uid now db) in
  let db' := snd (use_invite_link tok uid now db) in
  invites_consistent db'
  ∧ users db' = users db
  ∧ (ok = false → db' = db)
  ∧ (ok = true →
     ∃ i, select_unused_invite tok db = Some i
       ∧ In {| invite_id := invite_id i; token := tok;
               invite_email := invite_email i; created_by := created_by i;
               expires_at := expires_at i; used := true;
               used_by := Some uid |} (invite_links db'))
  ∧ (∀ tok', tok' ≠ tok →
       select_unused_invite tok' db' = select_unused_invite tok' db).
Proof.
  intros (Ht & Hi & Hs) ok db'. subst ok db'. unfold use_invite_link.
  assert (invites_consistent db) as Hc by done.
  destruct (select_unused_invite tok db) as [i|] eqn:Hsel; cbn [fst snd];
    [|by split_and!].
  destruct (expires_at i) as [t|]; cbn [fst snd]; [|by split_and!].
  destruct (t <? now)%Z; cbn [fst snd]; [by split_and!|].
  apply select_unused_invite_Some in Hsel as (Hin & Htok & Hused).
  destruct (mark_used_tokens (invite_id i) uid db) as [Hmt Hmi].
  split_and!.
  - unfold invites_consistent, tokens_unique. rewrite Hmt, Hmi.
    split_and!; [done..|]. cbn [mark_used invite_links invite_links_seq].
    apply Forall_map. eapply Forall_impl; [exact Hs|].
    intros j Hj. simpl. by case_bool_decide.
  - done.
  - done.
  - intros _. exists i. split; [done|]. cbn [mark_used invite_links].
    apply in_map_iff. exists i. rewrite bool_decide_eq_true_2 by done.
    by rewrite Htok.
  - intros tok' Hne. unfold select_unused_invite.
    cbn [mark_used invite_links]. apply find_map_same.
    intros j Hj. destruct (decide (invite_id j = invite_id i)) as [Hid|Hid].
    + assert (j = i) as ->
        by by apply (NoDup_map_inj_on invite_id (invite_links db)).
      rewrite (bool_decide_eq_true_2 _ Hid). cbn [token used]. rewrite Htok.
      rewrite !bool_decide_eq_false_2 by done. done.
    + by rewrite (bool_decide_eq_false_2 _ Hid).
Qed.





End InviteFlow.

(** ** Registration and login *)

Section RegistrationFlow.
Import Database AuthManager.

Variable _hash_password : str → str.
Variable _check_password : str → str → bool.

(** How [register_user] ends: with a refusal and the database it was
    given, or with a new row at the end of [users]. *)
Lemma register_user_outcome
    (name password : str) (mail : option str) (tok : option str)
    (now now' : Z) (db : DB) :
  let res := fst (register_user _hash_password name password mail tok
                    now now' db) in
  let db' := snd (register_user _hash_password name password mail tok
                    now now' db) in
  (success res = false ∧ user res = None ∧ db' = db)
  ∨ (success res = true
     ∧ 3 ≤ length name ∧ 8 ≤ length password
     ∧ user_conflict name mail db = false
     ∧ (users db = []
        ∨ (users db ≠ [] ∧ ∃ t, tok = Some t ∧ t ≠ []
             ∧ v_success (validate_invite_token t now db) = true))
     ∧ user res
       = get_user_by_id (Z.of_nat (users_seq db + 1)) db'
     ∧ users db'
       = users db ++
         [{| user_id := users_seq db + 1; username := name;
             password_hash := _hash_password password; email := mail;
             is_admin := count_users db =? 0 |}]
     ∧ users_seq db' = users_seq db + 1
     ∧ ∃ db1, users db1 = users db'
         ∧ invite_links db1 = invite_links db
         ∧ invite_links_seq db1 = invite_links_seq db
         ∧ db' = (if count_users db =? 0 then db1
                  else snd (use_invite_link (default [] tok)
                              (Z.of_nat (users_seq db + 1)) now' db1))).
Proof.
  intros res db'. subst res db'. unfold register_user.
  set (first := count_users db =? 0).
  assert (first = true ↔ users db = []) as Hfirst.
  { subst first. unfold count_users. rewrite Nat.eqb_eq.
    destruct (users db); simpl; split; (done || lia). }
  destruct first eqn:Hf.
  - (* the first user *)
    destruct (Nat.ltb_spec (length name) 3); [by left|].
    destruct (Nat.ltb_spec (length password) 8); [by left|].
    unfold add_user. destruct (user_conflict name mail db) eqn:Hc.
    + cbn [Z.eqb]. by left.
    + destruct (Z.eqb_spec (Z.of_nat (users_seq db + 1)) (-1)); [lia|].
      right. cbn [fst snd success user users users_seq].
      split_and!; try done.
      * left. by apply Hfirst.
      * by eexists {| users := _; users_seq := _; invite_links := _;
                      invite_links_seq := _ |}.
  - destruct (truthy tok) eqn:Htok; cbn [negb]; [|by left].
    destruct tok as [[|c t]|]; try done. cbn [default from_option id].
    destruct (v_success (validate_invite_token (c :: t) now db)) eqn:Hv;
      [|by left].
    destruct (Nat.ltb_spec (length name) 3); [by left|].
    destruct (Nat.ltb_spec (length password) 8); [by left|].
    unfold add_user. destruct (user_conflict name mail db) eqn:Hc.
    + cbn [Z.eqb]. by left.
    + destruct (Z.eqb_spec (Z.of_nat (users_seq db + 1)) (-1)); [lia|].
      right.
      match goal with
      | |- context [use_invite_link ?t ?u ?n ?d] =>
          pose proof (use_invite_link_users t u n d) as Hu;
          destruct (use_invite_link t u n d) as [b db2] eqn:Huse
      end.
      cbn [fst snd success user] in *.
      destruct Hu as (Hu1 & Hu2). cbn [users users_seq] in Hu1, Hu2.
      split_and!; try done.
      * right. split; [|by exists (c :: t)].
        intros E. apply Hfirst in E. done.
      * eexists {| users := _; users_seq := _; invite_links := _;
                   invite_links_seq := _ |}.
        cbn [users invite_links invite_links_seq].
        split_and!; [symmetry; exact Hu1|reflexivity|reflexivity|].
        by rewrite Huse.
Qed.

Lemma users_consistent_ext (a b : DB) :
  users a = users b → users_seq a = users_seq b →
  users_consistent a → users_consistent b.
Proof. unfold users_consistent. by intros -> ->. Qed.

Lemma invites_consistent_ext (a b : DB) :
  invite_links a = invite_links b →
  invite_links_seq a = invite_links_seq b →
  invites_consistent a → invites_consistent b.
Proof. unfold invites_consistent, tokens_unique. by intros -> ->. Qed.

Lemma register_user_effect
    (name password : str) (mail : option str) (tok : option str)
    (now now' : Z) (db : DB) :
  users_consistent db →
  let res := fst (register_user _hash_password name password mail tok
                    now now' db) in
  let db' := snd (register_user _hash_password name password mail tok
                    now now' db) in
  users_consistent db'
  ∧ (invites_consistent db → invites_consistent db')
  ∧ (success res = false → user res = None ∧ db' = db)
  ∧ (success res = true →
     3 ≤ length name ∧ 8 ≤ length password
     ∧ ∃ u, user res = Some u
       ∧ users db' = users db ++ [u]
       ∧ username u = name
       ∧ password_hash u = _hash_password password
       ∧ email u = mail
       ∧ (is_admin u = true ↔ users db = [])).
Proof.
  intros Hc res db'.
  destruct (register_user_outcome name password mail tok now now' db)
    as [(Hs & Hu & Hdb)|(Hs & Hn & Hp & Hconf & Hgate & Hu & Hus & Hseq & db1
                          & Hu1 & Hi1 & Hs1 & Hdb)];
    fold res db' in Hs, Hu, Hdb.
  - rewrite Hdb, Hs. split_and!; done.
  - fold db' in Hus, Hseq, Hu1.
    assert (users_consistent db') as Hc'.
    { pose proof (add_user_consistent name (_hash_password password) mail
                    (count_users db =? 0) db Hc) as Ha.
      rewrite add_user_Some in Ha by done. cbn [snd] in Ha.
      eapply users_consistent_ext; [| |exact Ha]; cbn [users users_seq];
        congruence. }
    split_and!; [done| |by rewrite Hs|].
    + intros Hic.
      assert (invites_consistent db1) as Hic1
        by (eapply invites_consistent_ext; [| |exact Hic]; congruence).
      rewrite Hdb. destruct (count_users db =? 0); [done|].
      by apply use_invite_link_effect.
    + intros _. split_and!; [done..|]. eexists. split_and!; [|exact Hus|..].
      * rewrite Hu. destruct Hc' as (_ & Hid & _ & _).
        match goal with |- _ = Some ?u =>
          apply (get_user_by_id_In db' u Hid) end.
        rewrite Hus. apply in_app_iff. right. by left.
      * done.
      * done.
      * done.
      * cbn [is_admin]. unfold count_users. rewrite Nat.eqb_eq.
        destruct (users db); simpl; split; (done || lia).
Qed.

(** [X12] [register_user] either fails, returns no user and leaves
    the database as it was, or succeeds for a name of at least 3 and a
    password of at least 8 characters and appends exactly one user,
    the one it returns: with the given name and e-mail address, the
    hash of the password, and the administrator flag set exactly when
    there was no user before. The constraints of the schema on users
    and invites hold afterwards. *)
Theorem registration_effect
    (name password : str) (mail : option str) (tok : option str)
    (now now' : Z) (db : DB) :
  users_consistent db →
  let res := fst (register_user _hash_password name password mail tok
                    now now' db) in
  let db' := snd (register_user _hash_password name password mail tok
                    now now' db) in
  users_consistent db'
  ∧ (invites_consistent db → invites_consistent db')
  ∧ (success res = false → user res = None ∧ db' = db)
  ∧ (success res = true →
     3 ≤ length name ∧ 8 ≤ length password
     ∧ ∃ u, user res = Some u
       ∧ users db' = users db ++ [u]
       ∧ username u = name
       ∧ password_hash u = _hash_password password
       ∧ email u = mail
       ∧ (is_admin u = true ↔ users db = [])).
Proof. apply register_user_effect. Qed.

(** [X13] When checking a password against its own hash succeeds, a
    user who has registered can log in with the same name and
    password, and [login_user] returns the user that [register_user]
    returned. *)
Theorem registered_user_can_log_in
    (name password : str) (mail : option str) (tok : option str)
    (now now' : Z) (db : DB) :
  (∀ p, _check_password p (_hash_password p) = true) →
  users_consistent db →
  let res := fst (register_user _hash_password name password mail tok
                    now now' db) in
  let db' := snd (register_user _hash_password name password mail tok
                    now now' db) in
  success res = true →
  login_user _check_password name password db'
  = {| success := true; message := py "Login successful.";
       user := user res |}.
Proof.
  intros Hcheck Hc res db' Hs.
  destruct (register_user_effect name password mail tok now now' db Hc)
    as ((Hn & _) & _ & _ & Hok).
  fold res db' in Hn, Hok.
  destruct (Hok Hs) as (_ & _ & u & -> & Hus & Hname & Hhash & _).
  unfold login_user. rewrite <- Hname.
  rewrite (get_user_by_username_In db' u Hn)
    by (rewrite Hus; apply in_app_iff; right; by left).
  by rewrite Hhash, Hcheck.
Qed.

(** [X14] A registration that needed an invite uses it up: once it
    has succeeded on a table that had users, the token is refused from
    then on, by [validate_invite_token], by [use_invite_link] and by
    a further [register_user]. *)
Theorem registration_consumes_invite
    (name password : str) (mail : option str) (tok : str)
    (now now' : Z) (db : DB) :
  tokens_unique db → users db ≠ [] → (now ≤ now')%Z →
  let res := fst (register_user _hash_password name password mail (Some tok)
                    now now' db) in
  let db' := snd (register_user _hash_password name password mail (Some tok)
                    now now' db) in
  success res = true →
  ∀ later, (now' ≤ later)%Z →
    v_success (validate_invite_token tok later db') = false
    ∧ (∀ uid, fst (use_invite_link tok uid later db') = false)
    ∧ ∀ name2 password2 mail2 later',
        success (fst (register_user _hash_password name2 password2 mail2
                        (Some tok) later later' db')) = false.
Proof.
  intros Hu Hne Hle res db' Hs later Hlater.
  pose proof (register_user_outcome name password mail (Some tok) now now' db)
    as Ho.
  cbv zeta in Ho. fold res db' in Ho.
  destruct Ho as [(Hs' & _)|(_ & _ & _ & _ & Hgate & _ & Hus & _ & db1
                             & Hu1 & Hi1 & Hs1 & Hdb)]; [congruence|].
  destruct Hgate as [?|(_ & t & [= <-] & Htne & Hv)]; [done|].
  assert ((count_users db =? 0) = false) as Hcnt.
  { unfold count_users. destruct (users db); [done|]. done. }
  rewrite Hcnt in Hdb. cbn [default from_option id] in Hdb.
  assert (v_success (validate_invite_token tok later db') = false) as Hval.
  { unfold validate_invite_token in Hv |- *.
    assert (select_unused_invite tok db1 = select_unused_invite tok db)
      as Hsel1 by (unfold select_unused_invite; by rewrite Hi1).
    destruct (select_unused_invite tok db) as [i|] eqn:Hsel; [|done].
    destruct (expires_at i) as [e|] eqn:He; [|done].
    destruct (Z.ltb_spec e now); [done|].
    rewrite Hdb. unfold use_invite_link. rewrite Hsel1, He.
    destruct (Z.ltb_spec e now'); cbn [snd].
    - rewrite Hsel1, He. destruct (Z.ltb_spec e later); [done|lia].
    - rewrite (mark_used_select tok _ db1 i); [done| |done].
      unfold tokens_unique. by rewrite Hi1. }
  split; [done|]. split.
  - intros uid. by rewrite <- (validate_matches_use tok uid later db').
  - intros name2 password2 mail2 later'. unfold register_user.
    assert ((count_users db' =? 0) = false) as ->.
    { unfold count_users. rewrite Hus, length_app. simpl.
      apply Nat.eqb_neq. lia. }
    destruct tok as [|c t]; [done|].
    cbn [truthy negb default from_option id]. by rewrite Hval.
Qed.

End RegistrationFlow.

Section RegistrationExamples.
Import Database AuthManager Examples.

(** A user registers on [sample_db] with its invite at instant 50. *)
Lemma registration_effect_witness :
  users_consistent
    (snd (register_user sample_hash (py "alice") (py "correct horse") None
            (Some (py "tok")) 50 50 sample_db)).
Proof.
  exact (proj1 (registration_effect sample_hash (py "alice")
                  (py "correct horse") None (Some (py "tok")) 50 50 sample_db
                  sample_db_users_consistent)).
Defined.

(** The user logs in. *)
Lemma registered_user_can_log_in_witness :
  success
    (login_user sample_check (py "alice") (py "correct horse")
       (snd (register_user sample_hash (py "alice") (py "correct horse")
               None (Some (py "tok")) 50 50 sample_db)))
  = true.
Proof.
  rewrite (registered_user_can_log_in sample_hash sample_check (py "alice")
             (py "correct horse") None (Some (py "tok")) 50 50 sample_db).
  - reflexivity.
  - intros p. unfold sample_check. by apply bool_decide_eq_true_2.
  - exact sample_db_users_consistent.
  - reflexivity.
Defined.

(** The invite is refused at instant 60. *)
Lemma registration_consumes_invite_witness :
  v_success
    (validate_invite_token (py "tok") 60
       (snd (register_user sample_hash (py "alice") (py "correct horse")
               None (Some (py "tok")) 50 50 sample_db)))
  = false.
Proof.
  refine (proj1 (registration_consumes_invite sample_hash (py "alice")
                   (py "correct horse") None (py "tok") 50 50 sample_db
                   _ _ _ _ 60 _)).
  - unfold tokens_unique. simpl. apply NoDup_singleton.
  - discriminate.
  - lia.
  - reflexivity.
  - lia.
Defined.

End RegistrationExamples.

(** ** Storing a quiz *)

Section StoredQuiz.
Import PyStr QuizGenerator QuizTables QuizSession Examples.

Lemma find_app_l {A} (f : A → bool) (l k : list A) (x : A) :
  List.find f l = Some x → List.find f (l ++ k) = Some x.
Proof.
  induction l as [|a l IH]; simpl; [done|]. destruct (f a); [done|exact IH].
Qed.

Lemma find_app_r {A} (f : A → bool) (l k : list A) :
  List.find f l = None → List.find f (l ++ k) = List.find f k.
Proof.
  induction l as [|a l IH]; simpl; [done|]. destruct (f a); [done|exact IH].
Qed.

Lemma find_none_iff {A} (f : A → bool) (l : list A) :
  List.find f l = None ↔ Forall (λ x, f x = false) l.
Proof.
  induction l as [|a l IH]; simpl.
  - split; [constructor|done].
  - destruct (f a) eqn:Hf.
    + split; [done|]. intros H. inversion H; congruence.
    + rewrite IH. split; [by constructor|]. intros H. by inversion H.
Qed.

Lemma filter_none {A} (f : A → bool) (l : list A) :
  Forall (λ x, f x = false) l → List.filter f l = [].
Proof.
  induction 1 as [|a l Ha _ IH]; simpl; [done|]. by rewrite Ha.
Qed.

Lemma filter_all {A} (f : A → bool) (l : list A) :
  Forall (λ x, f x = true) l → List.filter f l = l.
Proof.
  induction 1 as [|a l Ha _ IH]; simpl; [done|]. by rewrite Ha, IH.
Qed.

Lemma add_questions_spec (quiz : Z) (qs : list Question) (db : QuizDB) :
  add_questions quiz qs db
  = {| quizzes := quizzes db;
       quizzes_seq := quizzes_seq db;
       question_rows :=
         question_rows db ++ filed quiz (question_rows_seq db) qs;
       question_rows_seq := question_rows_seq db + length qs;
       quiz_attempts := quiz_attempts db;
       quiz_attempts_seq := quiz_attempts_seq db;
       question_responses := question_responses db;
       question_responses_seq := question_responses_seq db |}.
Proof.
  revert db. induction qs as [|q qs IH]; intros db.
  - simpl. rewrite app_nil_r, Nat.add_0_r. by destruct db.
  - cbn [add_questions]. rewrite IH. unfold add_question, filed.
    cbn [snd quizzes quizzes_seq question_rows question_rows_seq
         quiz_attempts quiz_attempts_seq question_responses
         question_responses_seq imap length].
    rewrite <- app_assoc. cbn [app]. f_equal; [|lia].
    f_equal. f_equal; [f_equal; lia|].
    apply imap_ext. intros k x _. simpl. f_equal. lia.
Qed.

Lemma filed_asked (quiz : Z) (from : nat) (qs : list Question) :
  map asked (filed quiz from qs) = qs.
Proof.
  unfold filed. revert from. induction qs as [|q qs IH]; intros from; [done|].
  cbn [imap map asked]. f_equal.
  rewrite <- (IH (S from)) at 2. f_equal. apply imap_ext.
  intros k x _. simpl. f_equal. lia.
Qed.

Lemma filed_of_quiz (quiz : Z) (from : nat) (qs : list Question) :
  Forall (λ r, of_quiz r = quiz ∧ from < question_row_id r
               ∧ question_row_id r ≤ from + length qs)
    (filed quiz from qs).
Proof.
  unfold filed. apply Forall_forall. intros r Hr.
  apply elem_of_lookup_imap in Hr as (k & q & -> & Hk).
  apply lookup_lt_Some in Hk. simpl. split_and!; [done|lia..].
Qed.

Lemma filed_ids_NoDup (quiz : Z) (from : nat) (qs : list Question) :
  NoDup (map question_row_id (filed quiz from qs)).
Proof.
  unfold filed. revert from. induction qs as [|q qs IH]; intros from.
  - constructor.
  - cbn [imap map question_row_id]. apply NoDup_cons. split.
    + intros Hin. apply list_elem_of_In, in_map_iff in Hin as (r & Hr & Hin).
      apply list_elem_of_In, elem_of_lookup_imap in Hin as (k & x & -> & _).
      simpl in Hr. lia.
    + erewrite imap_ext; [apply (IH (S from))|].
      intros k x _. simpl. f_equal. lia.
Qed.

(** [X15] A quiz that [render_quiz_generator] has stored is read back
    by [get_quiz_with_questions] with its title, its source material,
    its creator and its questions in their order, provided that no
    question was filed under a quiz yet to be created; the other
    quizzes read as before, the attempt that was started is open, and
    ids stay distinct. *)
Theorem stored_quiz_is_read_back (quiz : Quiz) (user : Z) (db : QuizDB) :
  keys_consistent db → questions_filed db →
  let quiz_id := fst (fst (store_quiz quiz user db)) in
  let attempt := snd (fst (store_quiz quiz user db)) in
  let db' := snd (store_quiz quiz user db) in
  keys_consistent db' ∧ questions_filed db'
  ∧ (∃ row rows,
       get_quiz_with_questions quiz_id db' = Some (row, rows)
       ∧ quiz_title row = title quiz
       ∧ quiz_source_material row = source_material quiz
       ∧ quiz_created_by row = Some user
       ∧ map asked rows = questions quiz)
  ∧ (∀ other, other ≠ quiz_id →
       get_quiz_with_questions other db' = get_quiz_with_questions other db)
  ∧ (∃ a, In a (quiz_attempts db')
       ∧ Z.of_nat (attempt_id a) = attempt
       ∧ attempt_quiz a = quiz_id ∧ attempt_user a = user
       ∧ score a = None ∧ max_score a = None)
  ∧ question_responses db' = question_responses db.
Proof.
  intros (Hq1 & Hq2 & Hr1 & Hr2 & Ha1 & Ha2 & Hp1 & Hp2) Hfiled.
  unfold store_quiz, create_quiz, start_quiz_attempt.
  rewrite add_questions_spec.
  cbn [fst snd quizzes quizzes_seq question_rows question_rows_seq
       quiz_attempts quiz_attempts_seq question_responses
       question_responses_seq].
  set (qid := quizzes_seq db + 1).
  set (new := filed (Z.of_nat qid) (question_rows_seq db) (questions quiz)).
  pose proof (filed_of_quiz (Z.of_nat qid) (question_rows_seq db)
                (questions quiz)) as Hnew. fold new in Hnew.
  split_and!.
  - unfold keys_consistent.
    cbn [quizzes quizzes_seq question_rows question_rows_seq
         quiz_attempts quiz_attempts_seq question_responses
         question_responses_seq].
    split_and!; [| | | | | |done|done].
    + rewrite map_app. apply NoDup_app. split_and!; [done| |by apply NoDup_singleton].
      intros x Hx%list_elem_of_In%in_map_iff Hx'%list_elem_of_In.
      destruct Hx as (r & <- & Hr). simpl in Hx'.
      rewrite Forall_forall in Hq2.
      specialize (Hq2 r (proj2 (list_elem_of_In _ _) Hr)).
      destruct Hx' as [Hx'|[]]. lia.
    + apply Forall_app. split.
      * eapply Forall_impl; [exact Hq2|]. simpl. lia.
      * apply Forall_singleton. simpl. lia.
    + rewrite map_app. apply NoDup_app. split_and!; [done| |apply filed_ids_NoDup].
      intros x Hx%list_elem_of_In%in_map_iff Hx'%list_elem_of_In%in_map_iff.
      destruct Hx as (r & <- & Hr). destruct Hx' as (r' & Heq & Hr').
      rewrite Forall_forall in Hr2, Hnew.
      specialize (Hr2 r (proj2 (list_elem_of_In _ _) Hr)).
      specialize (Hnew r' (proj2 (list_elem_of_In _ _) Hr')).
      simpl in Hr2. lia.
    + apply Forall_app. split.
      * eapply Forall_impl; [exact Hr2|]. simpl. lia.
      * eapply Forall_impl; [exact Hnew|]. simpl. lia.
    + rewrite map_app. apply NoDup_app. split_and!; [done| |by apply NoDup_singleton].
      intros x Hx%list_elem_of_In%in_map_iff Hx'%list_elem_of_In.
      destruct Hx as (r & <- & Hr). simpl in Hx'.
      rewrite Forall_forall in Ha2.
      specialize (Ha2 r (proj2 (list_elem_of_In _ _) Hr)).
      destruct Hx' as [Hx'|[]]. lia.
    + apply Forall_app. split.
      * eapply Forall_impl; [exact Ha2|]. simpl. lia.
      * apply Forall_singleton. simpl. lia.
  - unfold questions_filed. cbn [question_rows quizzes_seq].
    apply Forall_app. split.
    + eapply Forall_impl; [exact Hfiled|]. simpl. lia.
    + eapply Forall_impl; [exact Hnew|]. simpl. intros r (-> & _). lia.
  - unfold get_quiz_with_questions. cbn [quizzes question_rows].
    rewrite find_app_r.
    2:{ apply find_none_iff. eapply Forall_impl; [exact Hq2|]. simpl.
        intros r Hr. apply bool_decide_eq_false_2. lia. }
    cbn [List.find quiz_id]. rewrite bool_decide_eq_true_2 by done.
    eexists _, _. split; [done|]. cbn [quiz_title quiz_source_material
                                        quiz_created_by].
    split_and!; [done..|].
    rewrite List.filter_app, filter_none, filter_all.
    + apply filed_asked.
    + eapply Forall_impl; [exact Hnew|]. simpl. intros r (-> & _).
      by apply bool_decide_eq_true_2.
    + eapply Forall_impl; [exact Hfiled|]. simpl. intros r Hr.
      apply bool_decide_eq_false_2. lia.
  - intros other Hother. unfold get_quiz_with_questions.
    cbn [quizzes question_rows].
    destruct (List.find _ (quizzes db)) as [row|] eqn:Hfind.
    + erewrite find_app_l by exact Hfind. f_equal. f_equal.
      rewrite List.filter_app, (filter_none _ new), app_nil_r; [done|].
      eapply Forall_impl; [exact Hnew|]. simpl. intros r (-> & _).
      apply bool_decide_eq_false_2. congruence.
    + rewrite find_app_r by exact Hfind. cbn [List.find quiz_id].
      rewrite bool_decide_eq_false_2; [done|]. congruence.
  - eexists. split; [apply in_app_iff; right; by left|]. by split_and!.
  - done.
Qed.

Lemma empty_quiz_db_consistent : keys_consistent empty_quiz_db.
Proof. unfold keys_consistent. simpl. split_and!; constructor. Qed.

(** [cells_quiz] is stored in empty tables by user 7. *)
Lemma stored_quiz_is_read_back_witness :
  ∃ row rows,
    get_quiz_with_questions
      (fst (fst (store_quiz cells_quiz 7 empty_quiz_db)))
      (snd (store_quiz cells_quiz 7 empty_quiz_db))
    = Some (row, rows)
    ∧ quiz_title row = py "Cells"
    ∧ map asked rows = questions cells_quiz.
Proof.
  destruct (stored_quiz_is_read_back cells_quiz 7 empty_quiz_db
              empty_quiz_db_consistent)
    as (_ & _ & (row & rows & Hget & Ht & _ & _ & Hq) & _).
  - constructor.
  - by exists row, rows.
Defined.

End StoredQuiz.

(** ** Taking and submitting a quiz *)

Section Submission.
Import PyStr QuizGenerator QuizComponent QuizTables QuizSession Examples.

Lemma record_response_cases (i : nat) (q : Question) (w : option str)
    (m : gmap nat Response) :
  record_response i q w m = m
  ∨ ∃ r, record_response i q w m = <[i := r]> m.
Proof.
  unfold record_response.
  destruct (question_type q), w as [[|c r]|]; eauto.
Qed.

Lemma record_response_lookup_ne (i j : nat) (q : Question) (w : option str)
    (m : gmap nat Response) :
  i ≠ j → record_response i q w m !! j = m !! j.
Proof.
  intros Hij. destruct (record_response_cases i q w m) as [->|[r ->]];
    [done|]. by rewrite lookup_insert_ne.
Qed.

Lemma record_response_lookup_ext (i : nat) (q : Question) (w : option str)
    (m m' : gmap nat Response) :
  m !! i = m' !! i →
  record_response i q w m !! i = record_response i q w m' !! i.
Proof.
  intros Hm. unfold record_response.
  destruct (question_type q), w as [[|c r]|];
    by rewrite ?lookup_insert_eq.
Qed.

Lemma record_response_dom (i : nat) (q : Question) (w : option str)
    (m : gmap nat Response) (j : nat) :
  j ∈ dom (record_response i q w m) → j = i ∨ j ∈ dom m.
Proof.
  destruct (record_response_cases i q w m) as [->|[r ->]]; [by right|].
  rewrite dom_insert. set_solver.
Qed.

Lemma record_response_keeps (i : nat) (q : Question) (w : option str)
    (m : gmap nat Response) (j : nat) :
  j ∈ dom m → j ∈ dom (record_response i q w m).
Proof.
  destruct (record_response_cases i q w m) as [->|[r ->]]; [done|].
  rewrite dom_insert. set_solver.
Qed.

Lemma store_response_ordered (i : nat) (q : Question) (w : option str)
    (rs : Responses) :
  ordered rs → ordered (store_response i q w rs).
Proof.
  intros [Hnd Hdom]. unfold store_response, ordered.
  cbn [entries key_order].
  destruct (decide (i ∈ dom (entries rs))) as [Hi|Hi].
  - rewrite bool_decide_eq_true_2 by done. split; [done|].
    intros j. rewrite Hdom. split; [apply record_response_keeps|].
    intros [->|?]%record_response_dom; done.
  - rewrite (bool_decide_eq_false_2 _ Hi).
    destruct (decide (i ∈ dom (record_response i q w (entries rs))))
      as [Hi'|Hi'].
    + rewrite bool_decide_eq_true_2 by done. split.
      * apply NoDup_app. split_and!; [done| |apply NoDup_singleton].
        intros x Hx%Hdom ->%list_elem_of_singleton. done.
      * intros j. rewrite elem_of_app, list_elem_of_singleton, Hdom.
        split.
        -- intros [?| ->]; [by apply record_response_keeps|done].
        -- intros [->|?]%record_response_dom; by eauto.
    + rewrite (bool_decide_eq_false_2 _ Hi'). split; [done|].
      intros j. rewrite Hdom. split; [apply record_response_keeps|].
      intros Hj. destruct (record_response_dom _ _ _ _ _ Hj) as [->|?];
        done.
Qed.

Lemma answer_loop_ordered (i : nat) (qs : list Question)
    (widget : nat → option str) (rs : Responses) :
  ordered rs → ordered (answer_loop i qs widget rs).
Proof.
  revert i rs. induction qs as [|q qs IH]; intros i rs Hrs; [done|].
  cbn [answer_loop]. by apply IH, store_response_ordered.
Qed.

(** What the loop leaves in the dictionary: under the index of a
    question, what its widget gives; elsewhere, what was there. *)
Lemma answer_loop_lookup (i : nat) (qs : list Question)
    (widget : nat → option str) (rs : Responses) (j : nat) :
  entries (answer_loop i qs widget rs) !! j
  = match (if decide (i ≤ j) then qs !! (j - i) else None) with
    | Some q => record_response j q (widget j) (entries rs) !! j
    | None => entries rs !! j
    end.
Proof.
  revert i rs. induction qs as [|q qs IH]; intros i rs.
  - cbn [answer_loop]. by destruct (decide (i ≤ j)).
  - cbn [answer_loop]. rewrite IH. unfold store_response at 1 2.
    cbn [entries].
    destruct (decide (S i ≤ j)) as [Hij|Hij].
    + destruct (decide (i ≤ j)); [|lia].
      replace (j - i) with (S (j - S i)) by lia. cbn [lookup list_lookup].
      change (list_lookup (j - S i) qs) with (qs !! (j - S i)).
      destruct (qs !! (j - S i)) as [q'|].
      * apply record_response_lookup_ext, record_response_lookup_ne. lia.
      * apply record_response_lookup_ne. lia.
    + destruct (decide (i ≤ j)) as [Hij'|Hij'].
      * assert (j = i) as -> by lia. by rewrite Nat.sub_diag.
      * apply record_response_lookup_ne. lia.
Qed.

Lemma answer_loop_dom (n : nat) (qs : list Question)
    (widget : nat → option str) (rs : Responses) (j : nat) :
  (∀ i, i ∈ dom (entries rs) → i < n) → length qs ≤ n →
  j ∈ dom (entries (answer_loop 0 qs widget rs)) → j < n.
Proof.
  intros Hb Hn [r Hj]%elem_of_dom. rewrite answer_loop_lookup in Hj.
  destruct (decide (0 ≤ j)); [|lia]. rewrite Nat.sub_0_r in Hj.
  destruct (qs !! j) as [q|] eqn:Hq.
  - apply lookup_lt_Some in Hq. lia.
  - apply Hb, elem_of_dom. eauto.
Qed.

Lemma answer_loop_responses_for (quiz : Quiz) (widget : nat → option str)
    (rs : Responses) :
  responses_for quiz rs →
  responses_for quiz (answer_loop 0 (questions quiz) widget rs).
Proof.
  intros (Hnd & Hdom & Hb).
  destruct (answer_loop_ordered 0 (questions quiz) widget rs) as [? ?];
    [done|].
  split_and!; [done..|]. intros i. by apply answer_loop_dom.
Qed.

(** Responses to the questions of the quiz that are as many as the
    questions leave no question out. *)
Lemma all_answered (quiz : Quiz) (rs : Responses) :
  responses_for quiz rs →
  length (questions quiz) ≤ size (entries rs) →
  ∀ i, i < length (questions quiz) → is_Some (entries rs !! i).
Proof.
  intros (_ & _ & Hb) Hsize i Hi. apply elem_of_dom.
  assert (dom (entries rs) ≡ set_seq 0 (length (questions quiz))) as Heq.
  { apply set_subseteq_size_equiv.
    - intros j Hj%Hb. apply elem_of_set_seq. lia.
    - by rewrite size_set_seq, size_dom. }
  apply Heq, elem_of_set_seq. lia.
Qed.

Lemma detailed_results_lookup (i : nat) (qs : list Question)
    (rs : Responses) (k : nat) (q : Question) :
  qs !! k = Some q →
  detailed_results i qs rs !! k
  = Some {| result_text := question_text q;
            result_type := question_type q;
            result_answer := correct_answer q;
            result_response :=
              from_option response (py "No answer") (entries rs !! (i + k));
            result_is_correct :=
              from_option is_correct false (entries rs !! (i + k)) |}.
Proof.
  revert i k. induction qs as [|q' qs IH]; intros i k; [done|].
  destruct k as [|k]; cbn [detailed_results].
  - intros [= ->]. by rewrite Nat.add_0_r.
  - intros Hk. cbn [lookup list_lookup].
    change (detailed_results (S i) qs rs !! k = Some
      {| result_text := question_text q; result_type := question_type q;
         result_answer := correct_answer q;
         result_response :=
           from_option response (py "No answer") (entries rs !! (i + S k));
         result_is_correct :=
           from_option is_correct false (entries rs !! (i + S k)) |}).
    rewrite (IH (S i) k Hk). by replace (S i + k) with (i + S k) by lia.
Qed.

Lemma detailed_results_length (i : nat) (qs : list Question)
    (rs : Responses) :
  length (detailed_results i qs rs) = length qs.
Proof.
  revert i. induction qs as [|q qs IH]; intros i; [done|].
  cbn [detailed_results length]. by rewrite IH.
Qed.

Lemma detailed_results_correct (i : nat) (qs : list Question)
    (rs : Responses) :
  length (List.filter result_is_correct (detailed_results i qs rs))
  = length (List.filter
              (λ j, from_option is_correct false (entries rs !! j))
              (seq i (length qs))).
Proof.
  revert i. induction qs as [|q qs IH]; intros i; [done|].
  cbn [detailed_results length seq List.filter result_is_correct].
  destruct (from_option is_correct false (entries rs !! i));
    cbn [length]; by rewrite IH.
Qed.

Lemma values_correct (rs : Responses) :
  ordered rs →
  List.filter is_correct (values rs)
  = omap (λ i, entries rs !! i)
      (List.filter (λ j, from_option is_correct false (entries rs !! j))
         (key_order rs)).
Proof.
  intros [_ Hdom]. unfold values.
  assert (Forall (λ i, i ∈ dom (entries rs)) (key_order rs)) as Hall
    by (apply Forall_forall; intros i; apply Hdom).
  clear Hdom. induction Hall as [|i l [r Hi]%elem_of_dom _ IH]; [done|].
  cbn [omap list_omap List.filter]. rewrite Hi. cbn [from_option].
  cbn [List.filter]. destruct (is_correct r) eqn:Hr.
  - cbn [omap list_omap]. rewrite Hi. f_equal. exact IH.
  - exact IH.
Qed.

Lemma omap_length_all {A B} (f : A → option B) (l : list A) :
  Forall (λ x, is_Some (f x)) l → length (omap f l) = length l.
Proof.
  induction 1 as [|x l [y Hy] _ IH]; [done|].
  cbn [omap list_omap]. rewrite Hy. simpl. by f_equal.
Qed.

(** The number of correct responses is the number of questions that
    the detailed results show as answered correctly. *)
Lemma correct_count_agrees (quiz : Quiz) (rs : Responses) :
  responses_for quiz rs →
  length (List.filter is_correct (values rs))
  = length (List.filter result_is_correct
              (detailed_results 0 (questions quiz) rs)).
Proof.
  intros (Hnd & Hdom & Hb).
  rewrite values_correct by done. rewrite detailed_results_correct.
  set (P := λ j, from_option is_correct false (entries rs !! j)).
  assert (∀ j, P j = true → j ∈ dom (entries rs)) as HP.
  { intros j. unfold P. destruct (entries rs !! j) eqn:Hj; [|done].
    intros _. apply elem_of_dom. eauto. }
  rewrite omap_length_all.
  2:{ apply Forall_forall. intros j Hj%list_elem_of_In%filter_In.
      destruct Hj as [_ Hj%HP]. by apply elem_of_dom. }
  apply Permutation_length, NoDup_Permutation.
  - apply NoDup_ListNoDup, List.NoDup_filter, NoDup_ListNoDup, Hnd.
  - apply NoDup_ListNoDup, List.NoDup_filter, seq_NoDup.
  - intros j. rewrite !list_elem_of_In, !filter_In, in_seq.
    rewrite <- list_elem_of_In, Hdom. split.
    + intros [Hj ?]. split; [|done]. apply Hb in Hj. lia.
    + intros [_ Hj]. split; [by apply HP|done].
Qed.

Lemma filter_length_le {A} (f : A → bool) (l : list A) :
  length (List.filter f l) ≤ length l.
Proof.
  induction l as [|a l IH]; simpl; [done|]. destruct (f a); simpl; lia.
Qed.

(** [X16] When the button is pressed, [render_quiz_taking] stores
    what the widgets hold and hands the quiz on to be graded only when
    every question has a response; otherwise it changes nothing but
    the responses. The results then list the questions of the quiz in
    their order, each with the response that is stored for it, and the
    number of correct responses is the number of questions that the
    results show as correct, at most the number of questions. *)
Theorem submitted_quiz_is_fully_answered
    (quiz : Quiz) (widget : nat → option str)
    (rs : Responses) (attempt : option Z) (db : QuizDB) :
  responses_for quiz rs →
  let rs' := fst (fst (render_quiz_taking quiz widget true rs attempt db)) in
  let res := snd (fst (render_quiz_taking quiz widget true rs attempt db)) in
  let db' := snd (render_quiz_taking quiz widget true rs attempt db) in
  responses_for quiz rs'
  ∧ (∀ i q, questions quiz !! i = Some q →
       entries rs' !! i = record_response i q (widget i) (entries rs) !! i)
  ∧ match res with
    | None => size (entries rs') < length (questions quiz) ∧ db' = db
    | Some results =>
        total_questions results = length (questions quiz)
        ∧ length (question_results results) = length (questions quiz)
        ∧ (∀ i q, questions quiz !! i = Some q →
             ∃ r, entries rs' !! i = Some r
               ∧ question_results results !! i
                 = Some {| result_text := question_text q;
                           result_type := question_type q;
                           result_answer := correct_answer q;
                           result_response := response r;
                           result_is_correct := is_correct r |})
        ∧ correct_count results
          = length (List.filter result_is_correct (question_results results))
        ∧ correct_count results ≤ total_questions results
    end.
Proof.
  intros Hrs. unfold render_quiz_taking.
  pose proof (answer_loop_responses_for quiz widget rs Hrs) as Hrs'.
  pose proof (answer_loop_lookup 0 (questions quiz) widget rs) as Hlook.
  set (rs1 := answer_loop 0 (questions quiz) widget rs) in *.
  assert (∀ i q, questions quiz !! i = Some q →
            entries rs1 !! i
            = record_response i q (widget i) (entries rs) !! i) as Hw.
  { intros i q Hq. rewrite Hlook. destruct (decide (0 ≤ i)); [|lia].
    by rewrite Nat.sub_0_r, Hq. }
  destruct (Nat.ltb_spec (size (entries rs1)) (length (questions quiz)))
    as [Hlt|Hge].
  - cbn [fst snd]. by split_and!.
  - unfold _process_quiz_submission.
    assert (length (List.filter is_correct (values rs1))
            = length (List.filter result_is_correct
                        (detailed_results 0 (questions quiz) rs1))) as Hcc
      by by apply correct_count_agrees.
    assert (∀ (i : nat) (q : Question),
      questions quiz !! i = Some q →
      ∃ r : Response,
        entries rs1 !! i = Some r
        ∧ detailed_results 0 (questions quiz) rs1 !! i
          = Some {| result_text := question_text q;
                    result_type := question_type q;
                    result_answer := correct_answer q;
                    result_response := response r;
                    result_is_correct := is_correct r |}) as Hdet.
    { intros i q Hq.
      destruct (all_answered quiz rs1 Hrs' Hge i) as [r Hr];
        [by eapply lookup_lt_Some|].
      exists r. split; [done|].
      rewrite (detailed_results_lookup 0 _ _ i q Hq). cbn [Nat.add].
      by rewrite Hr. }
    assert (length (List.filter is_correct (values rs1))
            ≤ length (questions quiz)) as Hle.
    { rewrite Hcc. etrans; [apply filter_length_le|].
      by rewrite detailed_results_length. }
    destruct attempt as [a|]; cbn [fst snd correct_count total_questions
                                    question_results];
      (split_and!; [done|done|done|apply detailed_results_length
                   |done|done|done]).
Qed.

Lemma no_responses_for (quiz : Quiz) : responses_for quiz no_responses.
Proof.
  unfold responses_for, no_responses. cbn [entries key_order].
  rewrite dom_empty_L. split_and!; [constructor| |set_solver].
  intros i. split; [by intros ?%not_elem_of_nil|set_solver].
Qed.

(** Both questions of [cells_quiz] are answered and the quiz is
    submitted. *)
Lemma submitted_quiz_is_fully_answered_witness :
  ∃ results,
    snd (fst (render_quiz_taking cells_quiz cells_answers true no_responses
                None empty_quiz_db))
    = Some results
    ∧ correct_count results ≤ total_questions results.
Proof.
  pose proof (submitted_quiz_is_fully_answered cells_quiz cells_answers
                no_responses None empty_quiz_db (no_responses_for cells_quiz))
    as (_ & _ & H).
  destruct (snd (fst (render_quiz_taking cells_quiz cells_answers true
                        no_responses None empty_quiz_db)))
    as [results|] eqn:E.
  - exists results. split; [done|]. by destruct H as (_ & _ & _ & _ & ?).
  - exfalso. vm_compute in E. discriminate.
Defined.

(** The rows that the loop over the responses appends. *)
Lemma record_responses_rows (a : Z) (m : gmap nat Response) (l : list nat)
    (db : QuizDB) :
  Forall (λ i, i ∈ dom m) l →
  let db' :=
    foldl (λ db i,
             match m !! i with
             | Some r =>
                 snd (record_question_response a (Z.of_nat i)
                        (response r) (is_correct r) db)
             | None => db
             end) db l in
  quizzes db' = quizzes db ∧ quizzes_seq db' = quizzes_seq db
  ∧ question_rows db' = question_rows db
  ∧ question_rows_seq db' = question_rows_seq db
  ∧ quiz_attempts db' = quiz_attempts db
  ∧ quiz_attempts_seq db' = quiz_attempts_seq db
  ∧ ∃ new,
      question_responses db' = question_responses db ++ new
      ∧ question_responses_seq db' = question_responses_seq db + length new
      ∧ map response_id new
        = seq (question_responses_seq db + 1) (length new)
      ∧ Forall2 (λ row i, ∃ r, m !! i = Some r
                   ∧ of_attempt row = a ∧ of_question row = Z.of_nat i
                   ∧ user_response row = response r
                   ∧ was_correct row = is_correct r) new l.
Proof.
  intros Hall. revert db.
  induction Hall as [|i l [r Hi]%elem_of_dom _ IH]; intros db.
  - cbn [foldl]. split_and!; [done..|]. exists []. rewrite app_nil_r.
    split_and!; [done|simpl; lia|done|constructor].
  - cbn [foldl]. rewrite Hi.
    set (db1 := snd (record_question_response a (Z.of_nat i) (response r)
                       (is_correct r) db)).
    destruct (IH db1) as (-> & -> & -> & -> & -> & -> & new & -> & -> & Hids
                          & Hnew).
    split_and!; [done..|].
    eexists (_ :: new). subst db1. unfold record_question_response.
    cbn [snd question_responses question_responses_seq].
    split_and!.
    + by rewrite <- app_assoc.
    + simpl. lia.
    + cbn [map response_id length seq]. rewrite Hids.
      unfold record_question_response. cbn [snd question_responses_seq].
      do 2 f_equal. lia.
    + constructor; [|done]. exists r. by split_and!.
Qed.

Lemma Forall2_map_diag {A B} (R : A → B → Prop) (f : A → B) (l : list A) :
  (∀ x, R x (f x)) → Forall2 R l (map f l).
Proof. intros HR. induction l; simpl; by constructor. Qed.

Lemma map_attempt_id_complete (a points max : Z) (l : list Attempt) :
  map attempt_id
    (map (λ x, if bool_decide (Z.of_nat (attempt_id x) = a)
               then {| attempt_id := attempt_id x;
                       attempt_quiz := attempt_quiz x;
                       attempt_user := attempt_user x;
                       score := Some points; max_score := Some max |}
               else x) l)
  = map attempt_id l.
Proof.
  rewrite map_map. apply map_ext. intros x. by case_bool_decide.
Qed.

(** [X17] A submission for an attempt stores one row for each
    response, in the order of the dictionary and under the index of its
    question, and completes the rows of the attempt with the number of
    correct responses out of the number of questions. The quizzes and
    their questions are as before, ids stay distinct, and no completed
    attempt has more points than its maximum. *)
Theorem submission_is_recorded (quiz : Quiz) (rs : Responses) (a : Z)
    (db : QuizDB) :
  responses_for quiz rs → keys_consistent db → scores_within_max db →
  let results := fst (_process_quiz_submission quiz rs (Some a) db) in
  let db' := snd (_process_quiz_submission quiz rs (Some a) db) in
  keys_consistent db' ∧ scores_within_max db'
  ∧ quizzes db' = quizzes db ∧ question_rows db' = question_rows db
  ∧ (∃ new,
       question_responses db' = question_responses db ++ new
       ∧ Forall2 (λ row i, ∃ r, entries rs !! i = Some r
                    ∧ of_attempt row = a ∧ of_question row = Z.of_nat i
                    ∧ user_response row = response r
                    ∧ was_correct row = is_correct r) new (key_order rs))
  ∧ Forall2 (λ old new,
       if bool_decide (Z.of_nat (attempt_id old) = a)
       then new = {| attempt_id := attempt_id old;
                     attempt_quiz := attempt_quiz old;
                     attempt_user := attempt_user old;
                     score := Some (Z.of_nat (correct_count results));
                     max_score := Some (Z.of_nat (total_questions results)) |}
            ∧ correct_count results ≤ total_questions results
       else new = old)
      (quiz_attempts db) (quiz_attempts db').
Proof.
  intros Hrs (Hq1 & Hq2 & Hr1 & Hr2 & Ha1 & Ha2 & Hp1 & Hp2) Hsc.
  assert (length (List.filter is_correct (values rs))
          ≤ length (questions quiz)) as Hle.
  { rewrite (correct_count_agrees quiz rs Hrs).
    etrans; [apply filter_length_le|]. by rewrite detailed_results_length. }
  destruct Hrs as (Hnd & Hdom & Hb).
  unfold _process_quiz_submission, record_responses. cbv zeta.
  cbn [fst snd correct_count total_questions].
  assert (Forall (λ i, i ∈ dom (entries rs)) (key_order rs)) as Hall
    by (apply Forall_forall; intros i; apply Hdom).
  destruct (record_responses_rows a (entries rs) (key_order rs) db Hall)
    as (E1 & E2 & E3 & E4 & E5 & E6 & new & E7 & E8 & Hids & Hnew).
  unfold complete_quiz_attempt.
  cbn [snd quizzes quizzes_seq question_rows question_rows_seq
       quiz_attempts quiz_attempts_seq question_responses
       question_responses_seq].
  rewrite E1, E3, E5, E7. split_and!.
  - unfold keys_consistent.
    cbn [quizzes quizzes_seq question_rows question_rows_seq
         quiz_attempts quiz_attempts_seq question_responses
         question_responses_seq].
    rewrite ?E1, ?E2, ?E3, ?E4, ?E5, ?E6, ?E7, ?E8, map_attempt_id_complete.
    split_and!; [done..| | |].
    + apply Forall_forall. intros x Hx%list_elem_of_In%in_map_iff.
      destruct Hx as (y & <- & Hy%list_elem_of_In).
      rewrite Forall_forall in Ha2. specialize (Ha2 y Hy).
      by case_bool_decide.
    + rewrite map_app, Hids. apply NoDup_app. split_and!; [done| |].
      * intros x Hx%list_elem_of_In%in_map_iff Hx'%list_elem_of_In%in_seq.
        destruct Hx as (y & <- & Hy%list_elem_of_In).
        rewrite Forall_forall in Hp2. specialize (Hp2 y Hy). simpl in Hp2.
        lia.
      * apply NoDup_ListNoDup, seq_NoDup.
    + apply Forall_app. split.
      * eapply Forall_impl; [exact Hp2|]. simpl. lia.
      * apply Forall_forall. intros x Hx.
        assert (response_id x ∈ map response_id new) as Hin
          by (apply list_elem_of_In, in_map, list_elem_of_In, Hx).
        rewrite Hids in Hin. apply list_elem_of_In, in_seq in Hin. lia.
  - unfold scores_within_max. cbn [quiz_attempts].
    apply Forall_forall. intros x Hx%list_elem_of_In%in_map_iff.
    destruct Hx as (y & <- & Hy%list_elem_of_In).
    unfold scores_within_max in Hsc. rewrite Forall_forall in Hsc.
    case_bool_decide; [|by apply Hsc].
    cbn [score max_score]. intros p m [= <-] [= <-]. lia.
  - done.
  - done.
  - by exists new.
  - apply Forall2_map_diag. intros x. by case_bool_decide.
Qed.

Lemma sample_quiz_db_consistent : keys_consistent sample_quiz_db.
Proof.
  unfold keys_consistent. simpl.
  split_and!;
    first [apply NoDup_singleton | apply NoDup_nil_2
          | apply Forall_singleton; simpl; lia | constructor].
Qed.

(** The answers to [cells_quiz] are submitted for attempt 1 of
    [sample_quiz_db]. *)
Lemma submission_is_recorded_witness :
  scores_within_max
    (snd (_process_quiz_submission cells_quiz
            (answer_loop 0 (questions cells_quiz) cells_answers no_responses)
            (Some 1%Z) sample_quiz_db))
  ∧ length
      (question_responses
         (snd (_process_quiz_submission cells_quiz
                 (answer_loop 0 (questions cells_quiz) cells_answers
                    no_responses)
                 (Some 1%Z) sample_quiz_db)))
    = 2.
Proof.
  destruct (submission_is_recorded cells_quiz
              (answer_loop 0 (questions cells_quiz) cells_answers no_responses)
              1 sample_quiz_db)
    as (_ & Hsc & _ & _ & (new & -> & Hnew) & _).
  - apply answer_loop_responses_for, no_responses_for.
  - exact sample_quiz_db_consistent.
  - apply Forall_singleton. by intros p m [=].
  - split; [done|]. apply Forall2_length in Hnew. rewrite length_app, Hnew.
    vm_compute. reflexivity.
Defined.

End Submission.

(** ** Paths and uploads *)

Section Paths.
Import PyStr PyPath.

(** [rfind] finds the last occurrence. *)
Lemma rfind_spec (c : ascii) (s : str) :
  (rfind c s = (-1)%Z ∧ c ∉ s)
  ∨ ∃ pre post, s = pre ++ c :: post ∧ (c ∉ post)
      ∧ rfind c s = Z.of_nat (length pre).
Proof.
  induction s as [|x s IH]; [left; split; [done|apply not_elem_of_nil]|].
  cbn [rfind]. destruct IH as [[-> Hnot]|(pre & post & -> & Hpost & ->)].
  - cbn [Z.leb Z.compare]. case_bool_decide as Hx.
    + subst x. right. exists [], s. by split_and!.
    + left. split; [done|]. rewrite not_elem_of_cons. by split.
  - right. exists (x :: pre), post.
    destruct (Z.leb_spec 0 (Z.of_nat (length pre))); [|lia].
    split_and!; [done..|]. simpl. lia.
Qed.

Lemma later_part (c d : ascii) (pre post pre' post' : str) :
  pre ++ c :: post = pre' ++ d :: post' →
  length pre' < length pre → d ∉ post' → d ∉ c :: post.
Proof.
  intros Heq Hlt Hnot Hin. apply Hnot.
  assert (c :: post = drop (length pre - S (length pre')) post') as Hd.
  { transitivity (drop (length pre) (pre ++ c :: post)).
    - by rewrite drop_app_length.
    - rewrite Heq.
      replace (length pre)
        with (S (length pre') + (length pre - S (length pre'))) by lia.
      rewrite <- drop_drop.
      rewrite (cons_middle d pre' post'), app_assoc.
      rewrite (drop_app_length' (pre' ++ [d]));
        [f_equal; lia|rewrite length_app; simpl; lia]. }
  rewrite Hd in Hin. by eapply subseteq_drop.
Qed.

(** [os.path.splitext] cuts the path in two; the extension is empty or
    a dot with characters other than the dot and the separator. *)
Lemma splitext_spec (p : str) :
  fst (splitext p) ++ snd (splitext p) = p
  ∧ (snd (splitext p) = []
     ∨ ∃ e, snd (splitext p) = "."%char :: e
         ∧ ("."%char ∉ e) ∧ ("/"%char ∉ e)).
Proof.
  unfold splitext.
  destruct (Z.ltb_spec (rfind "/" p) (rfind "." p)) as [Hlt|Hge];
    [|by rewrite app_nil_r; auto].
  destruct (forallb _ _); [by rewrite app_nil_r; auto|].
  cbn [fst snd]. split; [apply take_drop|]. right.
  destruct (rfind_spec "." p) as [[Hdot _]|(pre & post & Hp & Hpost & Hdot)].
  { destruct (rfind_spec "/" p) as [[Hsep _]|(? & ? & _ & _ & Hsep)]; lia. }
  rewrite Hdot, Nat2Z.id. exists post. split_and!; [|done|].
  - rewrite Hp. by rewrite drop_app_length.
  - destruct (rfind_spec "/" p) as [[_ Hsep]|(pre' & post' & Hp' & Hpost' & Hsep)].
    + intros Hin. apply Hsep. rewrite Hp.
      apply elem_of_app. right. by right.
    + assert ("/"%char ∉ "."%char :: post) as Hn.
      { apply (later_part "." "/" pre post pre' post');
          [by rewrite <- Hp, <- Hp'|lia|done]. }
      by apply not_elem_of_cons in Hn as [_ ?].
Qed.

Lemma lower_char_punct (c d : ascii) :
  is_upper d = false → is_lower d = false →
  lower_char c = d → c = d.
Proof.
  destruct c as [[] [] [] [] [] [] [] []]; intros Hu Hl <-;
    (reflexivity || (exfalso; vm_compute in Hu, Hl; congruence)).
Qed.

Lemma lower_keeps_out (d : ascii) (s : str) :
  is_upper d = false → is_lower d = false → d ∉ s → d ∉ lower s.
Proof.
  intros Hu Hl Hs Hin. apply Hs. unfold lower in Hin.
  apply list_elem_of_In, in_map_iff in Hin as (c & Hc & Hin).
  apply (lower_char_punct c d Hu Hl) in Hc as ->. by apply list_elem_of_In.
Qed.

Lemma join_plain (folder name : str) :
  "/"%char ∉ name →
  ∃ sep, join folder name = folder ++ sep ++ name
    ∧ (sep = [] ∨ sep = py "/").
Proof.
  intros Hname. unfold join.
  destruct name as [|c name].
  - simpl. destruct (_ || _).
    + exists []. auto.
    + exists (py "/"). auto.
  - assert (startswith (py "/") (c :: name) = false) as ->.
    { apply not_true_is_false. intros Hs.
      apply Hname. unfold startswith in Hs. simpl in Hs.
      apply andb_true_iff in Hs as [Hs _].
      apply bool_decide_eq_true in Hs as <-. by left. }
    destruct (_ || _).
    + exists []. auto.
    + exists (py "/"). auto.
Qed.

End Paths.

Section Uploads.
Import PyStr PyExc PyPath UploadManager.

Lemma process_upload_names
    (Upload : Type)
    (process_image process_pdf process_docx
       : Upload → str → outcome (str * str))
    (hex : str) (file : Upload) (original : str) :
  let info :=
    process_upload Upload process_image process_pdf process_docx hex file
      original in
  original_filename info = original
  ∧ saved_filename info = hex ++ lower (snd (splitext original)).
Proof.
  unfold process_upload. cbv zeta.
  repeat case_bool_decide;
    repeat match goal with
      | |- context [match ?x with returned _ => _ | raised _ => _ end] =>
          destruct x as [[??]|?]
      end; done.
Qed.

Lemma saved_filename_plain
    (Upload : Type)
    (process_image process_pdf process_docx
       : Upload → str → outcome (str * str))
    (hex : str) (file : Upload) (original : str) :
  "/"%char ∉ hex →
  let info :=
    process_upload Upload process_image process_pdf process_docx hex file
      original in
  original_filename info = original
  ∧ ("/"%char ∉ saved_filename info)
  ∧ ∃ root ext,
      original = root ++ ext
      ∧ saved_filename info = hex ++ lower ext
      ∧ (ext = [] ∨ ∃ e, ext = "."%char :: e
                     ∧ ("."%char ∉ e) ∧ ("/"%char ∉ e)).
Proof.
  intros Hhex info.
  destruct (process_upload_names Upload process_image process_pdf
              process_docx hex file original) as [Ho Hs].
  fold info in Ho, Hs.
  destruct (splitext_spec original) as [Hcut Hext].
  split; [done|]. split.
  - rewrite Hs, not_elem_of_app. split; [done|].
    apply lower_keeps_out; [done..|].
    destruct Hext as [->|(e & -> & _ & He)]; [apply not_elem_of_nil|].
    rewrite not_elem_of_cons. by split.
  - by exists (fst (splitext original)), (snd (splitext original)).
Qed.

(** [X18] The name under which an upload is saved is a plain file name,
    whatever the name of the uploaded file: the value [hex] with the
    extension of the original name in lower case, and no separator from
    the original name. *)
Theorem saved_filename_is_plain
    (Upload : Type)
    (process_image process_pdf process_docx
       : Upload → str → outcome (str * str))
    (hex : str) (file : Upload) (original : str) :
  "/"%char ∉ hex →
  let info :=
    process_upload Upload process_image process_pdf process_docx hex file
      original in
  original_filename info = original
  ∧ ("/"%char ∉ saved_filename info)
  ∧ ∃ root ext,
      original = root ++ ext
      ∧ saved_filename info = hex ++ lower ext
      ∧ (ext = [] ∨ ∃ e, ext = "."%char :: e
                     ∧ ("."%char ∉ e) ∧ ("/"%char ∉ e)).
Proof. apply saved_filename_plain. Qed.

Variable Image : Type.
Variable mode : Image → str.
Variable Image_open : str → outcome Image.
Variable convert : Image → str → outcome Image.
Variable image_to_string : Image → outcome str.
Variable docx_Document : str → outcome DOCXHandler.Document.
Variables File Page : Type.
Variable open_rb : str → outcome File.
Variable PdfReader : File → outcome (PDFHandler.Reader Page).
Variable page_extract_text : Page → outcome str.
Variable NamedTemporaryFile : outcome str.
Variable run_pdftotext : str → str → outcome (Z * str).
Variable read_text : str → outcome str.
Variable unlink : str → outcome unit.
Variable Upload : Type.
Variable Image_open_upload : Upload → outcome Image.
Variable Image_save : Image → str → outcome unit.
Variable write_file : str → Upload → outcome unit.

(** [X19] An upload of a supported type succeeds exactly when the
    file could be saved, for an image by Pillow, which has to read the
    upload first: the text extraction decides nothing, and its result,
    also an error text, is handed on. A successful upload is found by
    [get_file_path] under its saved name and type. Any other type is
    refused with a message that names the extension. *)
Theorem upload_succeeds_when_saved (base hex : str) (file : Upload)
    (original : str) :
  let info :=
    process_upload Upload
      (ImageHandler.process_image Image mode Image_open convert
         image_to_string Upload Image_open_upload Image_save
         (image_folder base))
      (PDFHandler.save_and_process_pdf File Page open_rb PdfReader
         page_extract_text NamedTemporaryFile run_pdftotext read_text unlink
         Upload write_file (pdf_folder base))
      (DOCXHandler.process_docx docx_Document Upload write_file
         (docx_folder base))
      hex file original in
  let ext := lower (snd (splitext original)) in
  let supported := map py [".jpg"; ".jpeg"; ".png"; ".pdf"; ".docx"] in
  (ext ∉ supported →
     success info = false ∧ file_path info = None
     ∧ extracted_text info = None
     ∧ error info = Some (py "Unsupported file type: " ++ ext))
  ∧ (ext ∈ supported →
     ∃ kind path,
       kind ∈ map py ["image"; "pdf"; "docx"]
       ∧ get_file_path base (saved_filename info) kind = Some path
       ∧ let saved :=
           if bool_decide (kind = py "image") then
             PyExc.and_then (Image_open_upload file)
               (λ img, Image_save img path)
           else write_file path file in
         (saved = returned tt →
            success info = true ∧ error info = None
            ∧ file_type info = kind ∧ file_path info = Some path
            ∧ extracted_text info
              = Some (if bool_decide (kind = py "image") then
                        ImageHandler.extract_text Image mode Image_open
                          convert image_to_string path
                      else if bool_decide (kind = py "pdf") then
                        snd (PDFHandler.process_pdf File Page open_rb
                               PdfReader page_extract_text NamedTemporaryFile
                               run_pdftotext read_text unlink path)
                      else DOCXHandler.extract_text docx_Document path))
         ∧ ∀ e, saved = raised e →
             success info = false ∧ error info = Some e
             ∧ file_path info = None ∧ extracted_text info = None).
Proof.
  intros info ext supported.
  assert (lower ext = ext) as Hlow by apply lower_idemp.
  subst info. unfold process_upload. fold ext. rewrite Hlow.
  subst supported. split.
  - intros Hun.
    rewrite bool_decide_eq_false_2
      by (intros H%list_elem_of_In; apply Hun, list_elem_of_In;
          simpl in *; tauto).
    rewrite bool_decide_eq_false_2
      by (intros H; apply Hun, list_elem_of_In; rewrite H; simpl; tauto).
    rewrite bool_decide_eq_false_2
      by (intros H; apply Hun, list_elem_of_In; rewrite H; simpl; tauto).
    done.
  - intros Hsup. case_bool_decide as Himg.
    + exists (py "image"), (join (image_folder base) (hex ++ ext)).
      split; [apply list_elem_of_In; simpl; tauto|].
      unfold ImageHandler.process_image, ImageHandler.save_image.
      destruct (Image_open_upload file) as [img|e'] eqn:Ho; cbn.
      * destruct (Image_save img _) as [[]|e'] eqn:Hw; cbn.
        -- split_and!; [done| |]; [by intros _|by intros e [=]].
        -- split_and!; [done| |]; [by intros [=]|by intros e [= <-]].
      * split_and!; [done| |]; [by intros [=]|by intros e [= <-]].
    + case_bool_decide as Hpdf.
      * exists (py "pdf"), (join (pdf_folder base) (hex ++ ext)).
        split; [apply list_elem_of_In; simpl; tauto|].
        unfold PDFHandler.save_and_process_pdf, PDFHandler.save_pdf,
          PDFHandler.process_pdf.
        destruct (write_file _ _) as [[]|e'] eqn:Hw; cbn.
        -- split_and!; [done| |]; [by intros _|by intros e [=]].
        -- split_and!; [done| |]; [by intros [=]|by intros e [= <-]].
      * assert (ext = py ".docx") as Hdocx.
        { apply list_elem_of_In in Hsup. simpl in Hsup.
          destruct Hsup as [H|[H|[H|[H|[H|[]]]]]]; [..|done];
            exfalso; (apply Hpdf; by rewrite <- H)
            || (apply Himg, list_elem_of_In; rewrite <- H; simpl; tauto). }
        rewrite bool_decide_eq_true_2 by done.
        exists (py "docx"), (join (docx_folder base) (hex ++ ext)).
        split; [apply list_elem_of_In; simpl; tauto|].
        unfold DOCXHandler.process_docx, DOCXHandler.save_docx.
        destruct (write_file _ _) as [[]|e'] eqn:Hw; cbn.
        -- split_and!; [done| |]; [by intros _|by intros e [=]].
        -- split_and!; [done| |]; [by intros [=]|by intros e [= <-]].
Qed.

End Uploads.

Section UploadExamples.
Import PyStr PyExc PyPath UploadManager Examples.

(** An upload whose name points out of the folder. *)
Lemma saved_filename_is_plain_witness :
  saved_filename
    (process_upload unit (λ _ _, raised []) (λ _ _, raised [])
       (λ _ _, raised []) sample_hex tt (py "../../etc/passwd.PNG"))
  = sample_hex ++ py ".png"
  ∧ "/"%char ∉ sample_hex ++ py ".png".
Proof.
  split; [reflexivity|].
  refine (proj1 (proj2 (saved_filename_is_plain unit (λ _ _, raised [])
            (λ _ _, raised []) (λ _ _, raised []) sample_hex tt
            (py "../../etc/passwd.PNG") _))).
  apply (bool_decide_unpack _). vm_compute. exact I.
Defined.

End UploadExamples.

(** ** The pages of a PDF *)

Section PdfPages.
Import PyStr PyExc PDFHandler.

Variables File Page : Type.
Variable open_rb : str → outcome File.
Variable PdfReader : File → outcome (Reader Page).
Variable page_extract_text : Page → outcome str.

Lemma pages_text_returned (ps : list Page) (ts : list str) (text : str) :
  Forall2 (λ p t, page_extract_text p = returned t) ps ts →
  pages_text Page page_extract_text ps text
  = returned (text ++ concat (map (λ t, t ++ [newline; newline]) ts)).
Proof.
  intros Hall. revert text.
  induction Hall as [|p t ps ts Hp _ IH]; intros text; cbn [pages_text].
  - by rewrite app_nil_r.
  - rewrite Hp. cbn [and_then]. rewrite IH. cbn [map concat].
    by rewrite <- !app_assoc.
Qed.

Lemma pages_text_raised (before after : list Page) (p : Page) (e text : str) :
  Forall (λ p, did_raise (page_extract_text p) = false) before →
  page_extract_text p = raised e →
  pages_text Page page_extract_text (before ++ p :: after) text = raised e.
Proof.
  intros Hall Hp. revert text.
  induction Hall as [|q before Hq _ IH]; intros text;
    cbn [app pages_text].
  - by rewrite Hp.
  - destruct (page_extract_text q); [|done]. cbn [and_then]. apply IH.
Qed.

(** [X20] For a document that PyPDF2 opens and that is not encrypted,
    [extract_text_with_pypdf2] gives the texts of the pages in their
    order, each followed by an empty line; when the extraction from a
    page raises an exception, its message is returned after the prefix
    and the texts of the pages before are dropped. *)
Theorem pypdf2_text_of_pages (path : str) (file : File)
    (reader : Reader Page) :
  open_rb path = returned file →
  PdfReader file = returned reader →
  is_encrypted reader = false →
  (∀ ts, Forall2 (λ p t, page_extract_text p = returned t)
           (pages reader) ts →
     extract_text_with_pypdf2 File Page open_rb PdfReader page_extract_text
       path
     = concat (map (λ t, t ++ [newline; newline]) ts))
  ∧ (∀ before p after e,
       pages reader = before ++ p :: after →
       Forall (λ p, did_raise (page_extract_text p) = false) before →
       page_extract_text p = raised e →
       extract_text_with_pypdf2 File Page open_rb PdfReader
         page_extract_text path
       = py "Error extracting text with PyPDF2: " ++ e).
Proof.
  intros Hopen Hread Henc.
  unfold extract_text_with_pypdf2, pypdf2_body.
  rewrite Hopen. cbn [and_then]. rewrite Hread. cbn [and_then].
  rewrite Henc. split.
  - intros ts Hts. by rewrite (pages_text_returned _ ts).
  - intros before p after e -> Hbefore Hp.
    by rewrite (pages_text_raised before after p e).
Qed.

End PdfPages.

Section PdfExamples.
Import PyStr PyExc PDFHandler Examples.

(** A document of two pages. *)
Lemma pypdf2_text_of_pages_witness :
  extract_text_with_pypdf2 unit str (λ _, returned tt)
    (λ _, returned two_pages) returned (py "notes.pdf")
  = py "First page" ++ [newline; newline]
    ++ py "Second page" ++ [newline; newline].
Proof.
  apply (proj1 (pypdf2_text_of_pages unit str (λ _, returned tt)
                  (λ _, returned two_pages) returned (py "notes.pdf") tt
                  two_pages eq_refl eq_refl eq_refl)
           [py "First page"; py "Second page"]).
  repeat constructor.
Defined.

End PdfExamples.
